(** * Clipped: clipboard history and native paste injection

    A shallow embedding of the main process of the Clipped clipboard
    manager ([main.js]): the shell helpers ([shellEscape],
    [tryCommandsSequentially]), the history engine ([addToHistory],
    the [toggle-pin], [delete-item], [clear-history] and
    [search-history] handlers), the clipboard watcher, [pasteItem]
    and the hotkey handlers.

    JavaScript strings are modelled as [string]: sequences of code
    units below 256 (the Latin-1 part of UTF-16) instead of 16-bit
    ones; arrays as [list], numbers that are used as counts or indices
    as [Z].  Callback-taking functions ([exec], [setTimeout], the
    [Promise] executor) are written in continuation-passing style over
    an explicit [World] that holds the fields of the
    [NativeClipboardManager] object, the persistent store, the OS
    clipboard and a trace of the observable effects; an exception that
    nothing catches ends the run with [Throws]. *)

From Stdlib Require Import ZArith Lia Ascii.
From stdpp Require Import base option list strings.

(** ** JavaScript primitives used by [main.js] *)

Module JS.

(** [Array.prototype.slice(start, end)] for integer arguments: a
    negative bound counts from the end of the array, and both bounds
    are clamped to [0 .. length]. *)
Definition clamp_index (len i : Z) : Z :=
  if (i <? 0)%Z then Z.max (len + i) 0 else Z.min i len.

Definition slice {A} (l : list A) (start end_ : Z) : list A :=
  let len := Z.of_nat (length l) in
  let k := clamp_index len start in
  let final := clamp_index len end_ in
  take (Z.to_nat (final - k)) (drop (Z.to_nat k) l).

(** [arr[index]]: [undefined] (here [None]) unless [index] is an
    integer in range. *)
Definition get {A} (l : list A) (index : Z) : option A :=
  if (index <? 0)%Z then None else l !! Z.to_nat index.

(** [arr.splice(index, 1)] for an index in range. *)
Definition splice1 {A} (l : list A) (index : Z) : list A :=
  let len := Z.of_nat (length l) in
  let k := clamp_index len index in
  take (Z.to_nat k) l ++ drop (S (Z.to_nat k)) l.

(** [String.prototype.toLowerCase] on code units below 256: the
    letters A to Z (65 to 90) and the accented capitals of Latin-1 (192
    to 222, without the multiplication sign 215) go to the code unit 32
    above; every other code unit is its own lower-case form. *)
Definition lower_char (c : ascii) : ascii :=
  let n := nat_of_ascii c in
  if (65 <=? n)%nat && (n <=? 90)%nat
     || (192 <=? n)%nat && (n <=? 214)%nat
     || (216 <=? n)%nat && (n <=? 222)%nat
  then ascii_of_nat (n + 32) else c.

Fixpoint toLowerCase (s : string) : string :=
  match s with
  | EmptyString => EmptyString
  | String c s' => String (lower_char c) (toLowerCase s')
  end.

(** [s.startsWith(sub)] *)
Fixpoint startsWith (s sub : string) : bool :=
  match sub, s with
  | EmptyString, _ => true
  | String _ _, EmptyString => false
  | String b sub', String a s' => Ascii.eqb a b && startsWith s' sub'
  end.

(** [s.includes(sub)]: [sub] occurs in [s] at some position. *)
Fixpoint includes (s sub : string) : bool :=
  startsWith s sub ||
  match s with
  | EmptyString => false
  | String _ s' => includes s' sub
  end.

(** The white space and line terminators of ECMAScript among the code
    units below 256: tab, line feed, vertical tab, form feed, carriage
    return, space and the no-break space (160). *)
Definition is_white_space (c : ascii) : bool :=
  let n := nat_of_ascii c in
  (9 <=? n)%nat && (n <=? 13)%nat || (n =? 32)%nat || (n =? 160)%nat.

(** [String.prototype.trim]: strip white space at both ends. *)
Fixpoint trimStart (s : string) : string :=
  match s with
  | EmptyString => EmptyString
  | String c s' => if is_white_space c then trimStart s' else s
  end.

Definition trimEnd (s : string) : string :=
  String.rev (trimStart (String.rev s)).

Definition trim (s : string) : string := trimEnd (trimStart s).

(** Truthiness of a string: every string but the empty one. *)
Definition truthy (s : string) : bool :=
  match s with EmptyString => false | String _ _ => true end.

End JS.

(** ** Shell helpers *)

(** [String(str).replace(/'/g, "'\\''")]: every single quote becomes
    the four characters quote, backslash, quote, quote. *)
Fixpoint replace_quotes (s : string) : string :=
  match s with
  | EmptyString => EmptyString
  | String c s' =>
      if Ascii.eqb c "'" then "'\''" +:+ replace_quotes s'
      else String c (replace_quotes s')
  end.

(** [shellEscape(str)]; [None] stands for [null] and [undefined]. *)
Definition shellEscape (str : option string) : string :=
  match str with
  | None => "''"
  | Some s => "'" +:+ replace_quotes s +:+ "'"
  end.

(** How a POSIX shell reads one word made of single-quoted segments and
    backslash-escaped characters.  Inside single quotes every character
    is literal up to the closing quote; outside, a backslash makes the
    next character literal.  Any other character outside quotes is
    refused: it would be read by the shell as syntax, not as data. *)
Inductive QuoteState := Unquoted | InSingle.

Fixpoint sh_word (st : QuoteState) (s : string) : option string :=
  match s with
  | EmptyString =>
      match st with Unquoted => Some EmptyString | InSingle => None end
  | String c s' =>
      match st with
      | InSingle =>
          if Ascii.eqb c "'" then sh_word Unquoted s'
          else String c <$> sh_word InSingle s'
      | Unquoted =>
          if Ascii.eqb c "'" then sh_word InSingle s'
          else if Ascii.eqb c "\" then
            match s' with
            | EmptyString => None
            | String d s'' => String d <$> sh_word Unquoted s''
            end
          else None
      end
  end.

(** The description of the escaping in words: cut the text at every
    single quote and join the pieces with the escape sequence.
    [split_quotes] returns the first piece and the pieces that follow
    a quote. *)
Fixpoint split_quotes (s : string) : string * list string :=
  match s with
  | EmptyString => (EmptyString, [])
  | String c s' =>
      let (p, ps) := split_quotes s' in
      if Ascii.eqb c "'" then (EmptyString, p :: ps) else (String c p, ps)
  end.

Fixpoint join_after (sep : string) (pieces : list string) : string :=
  match pieces with
  | [] => EmptyString
  | p :: ps => sep +:+ p +:+ join_after sep ps
  end.

Definition single_quoted_literal (s : string) : string :=
  let (p, ps) := split_quotes s in
  "'" +:+ p +:+ join_after "'\''" ps +:+ "'".

(** ** Data model *)

(** [type] is either ["text"] or ["image"]. *)
Inductive ItemType := Text | Image.

Global Instance ItemType_eq_dec : EqDecision ItemType.
Proof. solve_decision. Defined.

(** A clipboard history entry, as built by the clipboard watcher. *)
Record Item := mkItem {
  item_type : ItemType;
  content : string;
  timestamp : string;
  pinned : bool;
  item_id : Z;
}.

Global Instance Item_eq_dec : EqDecision Item.
Proof. solve_decision. Defined.

Definition set_pinned (b : bool) (it : Item) : Item :=
  mkItem (item_type it) (content it) (timestamp it) b (item_id it).

(** The persistent store (electron-store) with the keys the core uses;
    its defaults are those of [new Store({ defaults: ... })]. *)
Record Store := mkStore {
  store_clipboardHistory : list Item;
  store_maxItems : Z;
  store_hotkey : string;
}.

Definition store_defaults : Store := mkStore [] 50 "Super+V".

(** The picker window. *)
Record BrowserWindow := mkWindow {
  isDestroyed : bool;
  isVisible : bool;
}.

(** Observable effects, in the order they happen. *)
Inductive Event :=
  | StoreSet_clipboardHistory (h : list Item)
  | StoreSet_hotkey (k : string)
  | Send (channel : string) (h : list Item)
  | Exec (cmd : string)
  | ClipboardWriteText (t : string)
  | ClipboardWriteImage (dataURL : string)
  | Hide
  | UnregisterAll
  | ShortcutBound (accelerator : string).

(** The fields of the [NativeClipboardManager] instance, the store, the
    OS clipboard (text channel and image channel, the image as its
    data URL, [None] for the empty image), the shortcuts this process
    holds, and the trace of effects. *)
Record World := mkWorld {
  clipboardHistory : list Item;
  lastClipboardContent : string;
  lastImageDataURL : string;
  lastActiveWindowId : option string;
  mainWindow : option BrowserWindow;
  store : Store;
  clipboard_text : string;
  clipboard_image : option string;
  shortcuts : list string;
  trace : list Event;
}.

Definition set_clipboardHistory (h : list Item) (w : World) : World :=
  mkWorld h (lastClipboardContent w) (lastImageDataURL w)
    (lastActiveWindowId w) (mainWindow w) (store w) (clipboard_text w)
    (clipboard_image w) (shortcuts w) (trace w).

Definition set_lastClipboardContent (t : string) (w : World) : World :=
  mkWorld (clipboardHistory w) t (lastImageDataURL w)
    (lastActiveWindowId w) (mainWindow w) (store w) (clipboard_text w)
    (clipboard_image w) (shortcuts w) (trace w).

Definition set_lastImageDataURL (d : string) (w : World) : World :=
  mkWorld (clipboardHistory w) (lastClipboardContent w) d
    (lastActiveWindowId w) (mainWindow w) (store w) (clipboard_text w)
    (clipboard_image w) (shortcuts w) (trace w).

Definition set_lastActiveWindowId (i : option string) (w : World) : World :=
  mkWorld (clipboardHistory w) (lastClipboardContent w) (lastImageDataURL w)
    i (mainWindow w) (store w) (clipboard_text w)
    (clipboard_image w) (shortcuts w) (trace w).

Definition set_mainWindow (m : option BrowserWindow) (w : World) : World :=
  mkWorld (clipboardHistory w) (lastClipboardContent w) (lastImageDataURL w)
    (lastActiveWindowId w) m (store w) (clipboard_text w)
    (clipboard_image w) (shortcuts w) (trace w).

Definition set_store (s : Store) (w : World) : World :=
  mkWorld (clipboardHistory w) (lastClipboardContent w) (lastImageDataURL w)
    (lastActiveWindowId w) (mainWindow w) s (clipboard_text w)
    (clipboard_image w) (shortcuts w) (trace w).

Definition set_clipboard (t : string) (i : option string) (w : World) : World :=
  mkWorld (clipboardHistory w) (lastClipboardContent w) (lastImageDataURL w)
    (lastActiveWindowId w) (mainWindow w) (store w) t i (shortcuts w) (trace w).

Definition set_shortcuts (ks : list string) (w : World) : World :=
  mkWorld (clipboardHistory w) (lastClipboardContent w) (lastImageDataURL w)
    (lastActiveWindowId w) (mainWindow w) (store w) (clipboard_text w)
    (clipboard_image w) ks (trace w).

Definition emit (e : Event) (w : World) : World :=
  mkWorld (clipboardHistory w) (lastClipboardContent w) (lastImageDataURL w)
    (lastActiveWindowId w) (mainWindow w) (store w) (clipboard_text w)
    (clipboard_image w) (shortcuts w) (trace w ++ [e]).

(** [store.set("clipboardHistory", h)] and [store.set("hotkey", k)] *)
Definition store_set_clipboardHistory (h : list Item) (w : World) : World :=
  emit (StoreSet_clipboardHistory h)
    (set_store (mkStore h (store_maxItems (store w)) (store_hotkey (store w))) w).

Definition store_set_hotkey (k : string) (w : World) : World :=
  emit (StoreSet_hotkey k)
    (set_store
       (mkStore (store_clipboardHistory (store w)) (store_maxItems (store w)) k) w).

(** [clipboard.writeText] and [clipboard.writeImage] replace what the
    OS clipboard holds. *)
Definition clipboard_writeText (t : string) (w : World) : World :=
  emit (ClipboardWriteText t) (set_clipboard t None w).

Definition clipboard_writeImage (dataURL : string) (w : World) : World :=
  emit (ClipboardWriteImage dataURL) (set_clipboard EmptyString (Some dataURL) w).

(** ** History engine *)

(** The list computed by [addToHistory]: drop the entries with the same
    content, put the new entry first, keep the first [maxItems]. *)
Definition addToHistory_list (maxItems : Z) (item : Item) (h : list Item)
  : list Item :=
  let h1 := filter (λ existingItem, content existingItem ≠ content item) h in
  let h2 := item :: h1 in
  JS.slice h2 0 maxItems.

Definition saveHistory (w : World) : World :=
  store_set_clipboardHistory (clipboardHistory w) w.

(** [this.mainWindow && !this.mainWindow.isDestroyed()] *)
Definition window_alive (w : World) : bool :=
  match mainWindow w with
  | Some win => negb (isDestroyed win)
  | None => false
  end.

Definition notify_renderer (w : World) : World :=
  if window_alive w then emit (Send "clipboard-updated" (clipboardHistory w)) w
  else w.

Definition addToHistory (item : Item) (w : World) : World :=
  let maxItems := store_maxItems (store w) in
  let w1 :=
    set_clipboardHistory
      (addToHistory_list maxItems item (clipboardHistory w)) w in
  notify_renderer (saveHistory w1).

Definition clearHistory (w : World) : World :=
  notify_renderer (saveHistory (set_clipboardHistory [] w)).

Definition hideWindow (w : World) : World :=
  match mainWindow w with
  | Some win => emit Hide (set_mainWindow (Some (mkWindow (isDestroyed win) false)) w)
  | None => w
  end.

(** The [toggle-pin] handler. *)
Definition toggle_pin (index : Z) (w : World) : bool * World :=
  match JS.get (clipboardHistory w) index with
  | Some it =>
      let h := alter (λ it, set_pinned (negb (pinned it)) it) (Z.to_nat index)
                 (clipboardHistory w) in
      (true, saveHistory (set_clipboardHistory h w))
  | None => (false, w)
  end.

(** The [delete-item] handler. *)
Definition delete_item (index : Z) (w : World) : bool * World :=
  match JS.get (clipboardHistory w) index with
  | Some _ =>
      let h := JS.splice1 (clipboardHistory w) index in
      (true, saveHistory (set_clipboardHistory h w))
  | None => (false, w)
  end.

(** The [clear-history] handler. *)
Definition clear_history (w : World) : bool * World := (true, clearHistory w).

(** The [search-history] handler. *)
Definition search_history (query : string) (w : World) : list Item :=
  if negb (JS.truthy query) then clipboardHistory w
  else
    filter
      (λ item, JS.includes (JS.toLowerCase (content item)) (JS.toLowerCase query))
      (clipboardHistory w).

(** A run of [addToHistory] calls, oldest call first; [addAll] is the
    same run on the list alone. *)
Definition addToHistory_all (items : list Item) (w : World) : World :=
  foldl (λ w item, addToHistory item w) w items.

Definition addAll (maxItems : Z) (items : list Item) (h : list Item) : list Item :=
  foldl (λ acc item, addToHistory_list maxItems item acc) h items.

(** ** The environment *)

(** What [globalShortcut.register] can do with an accelerator: bind it
    and return [true], return [false] without binding it, or raise. *)
Inductive Registration := Registered | Refused | Raises.

Global Instance Registration_eq_dec : EqDecision Registration.
Proof. solve_decision. Defined.

(** What the process cannot decide by itself: the session type read from
    [process.env], the error each shell command ends with ([None] for
    exit code 0), and what registering each accelerator does. *)
Record Env := mkEnv {
  isWaylandSession : bool;
  exec_error : string → option string;
  register_result : string → Registration;
}.

(** The outcome of a call that may raise a JavaScript exception. *)
Inductive Outcome (A : Type) :=
  | Returns (a : A) (w : World)
  | Throws (w : World).
Arguments Returns {A} a w.
Arguments Throws {A} w.

(** The first argument Node passes to a callback: an error or [null];
    [tryCommandsSequentially] also passes a result. *)
Definition Error := string.

(** A string holds a NUL character (code unit 0). *)
Fixpoint has_NUL (s : string) : bool :=
  match s with
  | EmptyString => false
  | String c s' => Ascii.eqb c "000" || has_NUL s'
  end.

Section Main.

Context (env : Env).

(** *** Running shell commands *)

(** [exec(cmd, callback)]: [exec] raises, and runs nothing, when the
    command holds a NUL character; otherwise the command runs, then the
    callback gets its error.  Nothing in [main.js] catches what [exec]
    or a callback raises: the run ends there ([Throws]), and a promise
    that waits for the callback is never resolved. *)
Definition exec {A} (cmd : string)
  (callback : option Error → World → Outcome A) (w : World) : Outcome A :=
  if has_NUL cmd then Throws w
  else callback (exec_error env cmd) (emit (Exec cmd) w).

(** [setTimeout(callback, delayMs)] with nothing else scheduled in
    between. *)
Definition setTimeout {R} (callback : World → R) (delayMs : Z) (w : World) : R :=
  callback w.

Fixpoint tryCommandsSequentially {A} (commands : list string)
  (cb : option Error → option bool → World → Outcome A) (w : World)
  : Outcome A :=
  match commands with
  | [] => cb (Some "no-commands") None w
  | cmd :: rest =>
      exec cmd
        (λ err w',
          match err with
          | None => cb None (Some true) w'
          | Some e =>
              match rest with
              | [] => cb (Some e) None w'
              | _ :: _ => tryCommandsSequentially rest cb w'
              end
          end) w
  end.

(** *** Paste injection *)

(** The injection commands [runPasteSequence] builds for an item. *)
Definition paste_commands (item : Item) : list string :=
  if isWaylandSession env then
    ["wtype -M ctrl v -m ctrl"] ++
    (if decide (item_type item ≠ Image) then
       let textArg := shellEscape (Some (content item)) in
       ["wtype --delay 1 " +:+ textArg]
     else [])
  else
    ["xdotool key --clearmodifiers ctrl+v"] ++
    (if decide (item_type item ≠ Image) then
       let textArg := shellEscape (Some (content item)) in
       ["xdotool type --clearmodifiers --delay 1 " +:+ textArg;
        "xclip -selection clipboard -o | xdotool type --clearmodifiers --file -"]
     else []).

(** [pasteItem(item)]; [resolve] is the continuation of the promise. *)
Definition pasteItem {A} (item : Item) (resolve : bool → World → Outcome A)
  (w : World) : Outcome A :=
  let w1 :=
    if decide (item_type item = Image) then clipboard_writeImage (content item) w
    else clipboard_writeText (content item) w in
  let w2 := hideWindow w1 in
  let delayMs := 10%Z in
  let runPasteSequence (w : World) : Outcome A :=
    let commands := paste_commands item in
    tryCommandsSequentially commands
      (λ _ _ w', resolve true (set_lastActiveWindowId None w')) w in
  setTimeout
    (λ w3,
      match lastActiveWindowId w3 with
      | Some wid =>
          if negb (isWaylandSession env) && JS.truthy wid then
            exec ("xdotool windowactivate --sync " +:+ wid)
              (λ _ w4, runPasteSequence w4) w3
          else runPasteSequence w3
      | None => runPasteSequence w3
      end) delayMs w2.

(** *** The clipboard watcher *)

(** One run of the [setInterval] callback of [startClipboardWatcher].
    [now] and [iso] are [Date.now()] and [new Date().toISOString()]
    at the text check, [now'] and [iso'] at the image check. *)
Definition watcher_text (now : Z) (iso : string) (w : World) : World :=
  let currentContent := clipboard_text w in
  if JS.truthy currentContent
     && bool_decide (currentContent ≠ lastClipboardContent w)
     && bool_decide (0 < String.length (JS.trim currentContent))
  then
    set_lastClipboardContent currentContent
      (addToHistory (mkItem Text currentContent iso false now) w)
  else w.

Definition watcher_image (now : Z) (iso : string) (w : World) : World :=
  match clipboard_image w with
  | Some imageDataURL =>
      if bool_decide (imageDataURL ≠ lastImageDataURL w)
         && bool_decide (100 < String.length imageDataURL)
      then
        set_lastImageDataURL imageDataURL
          (addToHistory (mkItem Image imageDataURL iso false now) w)
      else w
  | None => w
  end.

Definition watcher_tick (now : Z) (iso : string) (now' : Z) (iso' : string)
  (w : World) : World :=
  watcher_image now' iso' (watcher_text now iso w).

(** *** Hotkeys *)

Definition globalShortcut_register (accelerator : string) (w : World)
  : Outcome bool :=
  match register_result env accelerator with
  | Registered =>
      Returns true
        (emit (ShortcutBound accelerator) (set_shortcuts (accelerator :: shortcuts w) w))
  | Refused => Returns false w
  | Raises => Throws w
  end.

Definition globalShortcut_unregisterAll (w : World) : World :=
  emit UnregisterAll (set_shortcuts [] w).

(** The [for (const fallback of fallbacks)] loop of
    [setupGlobalShortcuts]; the result is the flag [registered]. *)
Fixpoint try_fallbacks (primaryHotkey : string) (fallbacks : list string)
  (w : World) : bool * World :=
  match fallbacks with
  | [] => (false, w)
  | fallback :: rest =>
      if decide (fallback ≠ primaryHotkey) then
        match globalShortcut_register fallback w with
        | Returns _ w' => (true, store_set_hotkey fallback w')
        | Throws w' => try_fallbacks primaryHotkey rest w'
        end
      else try_fallbacks primaryHotkey rest w
  end.

Definition fallbacks : list string := ["Super+V"; "Alt+V"; "CommandOrControl+Alt+V"].

Definition setupGlobalShortcuts (w : World) : Outcome unit :=
  let primaryHotkey := store_hotkey (store w) in
  match globalShortcut_register primaryHotkey w with
  | Returns _ w' => Returns () w'
  | Throws w' => Returns () (try_fallbacks primaryHotkey fallbacks w').2
  end.

(** The [get-current-hotkey] and [set-hotkey] handlers. *)
Definition get_current_hotkey (w : World) : string := store_hotkey (store w).

Definition set_hotkey (hotkeyString : string) (w : World) : bool * World :=
  let w1 := globalShortcut_unregisterAll w in
  let w2 := store_set_hotkey hotkeyString w1 in
  match globalShortcut_register hotkeyString w2 with
  | Returns _ w3 => (true, w3)
  | Throws w3 =>
      match setupGlobalShortcuts w3 with
      | Returns _ w4 => (true, w4)
      | Throws w4 => (false, w4)
      end
  end.

End Main.

(** ** The history contract in words *)

(** Dedup and promote without any bound: the earlier entry with the
    same content goes away and the new entry is put first. *)
Definition promote (item : Item) (h : list Item) : list Item :=
  item :: filter (λ e, content e ≠ content item) h.

(** The recency order after a run of adds, oldest add first: one entry
    per content, placed by the latest add of that content. *)
Definition recency (items : list Item) (h : list Item) : list Item :=
  foldl (λ acc item, promote item acc) h items.

Definition unpinned (h : list Item) : list Item :=
  filter (λ e, pinned e = false) h.

(** The eviction step of [addToHistory] never removes a pinned entry:
    every pinned entry of the list it is applied to is still there. *)
Definition eviction_keeps_pinned (item : Item) (w : World) : Prop :=
  ∀ e, e ∈ promote item (clipboardHistory w) → pinned e = true →
       e ∈ clipboardHistory (addToHistory item w).

(** ** The search contract in words *)

(** The letters that have two cases, each capital with its small
    letter: the alphabet, and the accented letters of Latin-1 (capitals
    at the code units 192 to 214 and 216 to 222, small letters at 224
    to 246 and 248 to 254). *)
Definition letters_of (s : string) : list ascii := String.list_ascii_of_string s.

Definition case_pairs : list (ascii * ascii) :=
  zip (letters_of "ABCDEFGHIJKLMNOPQRSTUVWXYZ")
      (letters_of "abcdefghijklmnopqrstuvwxyz")
  ++ zip (ascii_of_nat <$> seq 192 23 ++ seq 216 7)
         (ascii_of_nat <$> seq 224 23 ++ seq 248 7).

(** Two characters are the same letter in whatever case, or the same
    character. *)
Definition same_letter (a b : ascii) : Prop :=
  a = b ∨ (a, b) ∈ case_pairs ∨ (b, a) ∈ case_pairs.

Global Instance same_letter_dec a b : Decision (same_letter a b).
Proof. unfold same_letter. apply _. Defined.

(** Every code unit below 256. *)
Definition all_ascii : list ascii := ascii_of_nat <$> seq 0 256.

(** Two strings are the same text up to the case of their letters. *)
Inductive same_ignoring_case : string → string → Prop :=
  | sic_empty : same_ignoring_case EmptyString EmptyString
  | sic_char a b s t :
      same_letter a b →
      same_ignoring_case s t →
      same_ignoring_case (String a s) (String b t).

(** [text] contains [query] as a substring, compared case-insensitively. *)
Definition contains_ignoring_case (text query : string) : Prop :=
  ∃ pre mid post, text = pre +:+ mid +:+ post ∧ same_ignoring_case mid query.

(** ** The effect contracts in words *)

(** The events a step from [w] to [w'] added to the trace. *)
Definition new_events (w w' : World) : list Event :=
  drop (length (trace w)) (trace w').

(** A step wrote the list it ended with through to the store and then
    sent a notification carrying it. *)
Definition persists_then_notifies (w w' : World) : Prop :=
  ∃ i j channel,
    i < j
    ∧ new_events w w' !! i = Some (StoreSet_clipboardHistory (clipboardHistory w'))
    ∧ new_events w w' !! j = Some (Send channel (clipboardHistory w')).

(** Running the commands [cmds] one after the other. *)
Definition run_commands (cmds : list string) (w : World) : World :=
  foldl (λ w cmd, emit (Exec cmd) w) w cmds.


(** What [pasteItem] does before the injection commands: stage the
    content on the OS clipboard and hide the window. *)
Definition stage (item : Item) (w : World) : World :=
  hideWindow
    (if decide (item_type item = Image) then clipboard_writeImage (content item) w
     else clipboard_writeText (content item) w).

(** The world [pasteItem] leaves: the one it hands to [resolve], or
    the one in which [exec] raised. *)
Definition pasteItem_world (env : Env) (item : Item) (w : World) : World :=
  match pasteItem env item (λ b w', Returns b w') w with
  | Returns _ w' => w'
  | Throws w' => w'
  end.

(** [pasteItem(item)] followed, once its run has ended, by one run of
    the watcher. *)
Definition paste_then_tick (env : Env) (item : Item)
    (now : Z) (iso : string) (now' : Z) (iso' : string) (w : World) : World :=
  watcher_tick now iso now' iso' (pasteItem_world env item w).

(** A step added an entry with content [c] that was not there before. *)
Definition adds_entry_with_content (c : string) (w w' : World) : Prop :=
  ∃ e, e ∈ clipboardHistory w' ∧ (e ∉ clipboardHistory w) ∧ content e = c.

(** What a watcher run reads: the history, the last-seen values, the
    store and the OS clipboard. *)
Definition watcher_view (w : World)
  : list Item * string * string * Store * string * option string :=
  (clipboardHistory w, lastClipboardContent w, lastImageDataURL w, store w,
   clipboard_text w, clipboard_image w).

(** Self-write suppression as the specification states it. *)
Definition self_write_suppressed (env : Env) (item : Item)
    (now : Z) (iso : string) (now' : Z) (iso' : string) (w : World) : Prop :=
  ¬ adds_entry_with_content (content item) w
      (paste_then_tick env item now iso now' iso' w).

(** What the watcher last saw on the channel of an item, and its
    admission test for that channel. *)
Definition last_seen (t : ItemType) (w : World) : string :=
  match t with
  | Text => lastClipboardContent w
  | Image => lastImageDataURL w
  end.

Definition accepted_by_watcher (t : ItemType) (c : string) : Prop :=
  match t with
  | Text => 0 < String.length (JS.trim c)
  | Image => 100 < String.length c
  end.

Global Instance accepted_by_watcher_dec t c : Decision (accepted_by_watcher t c).
Proof. destruct t; simpl; apply _. Defined.

(** The entry the watcher builds for what it reads. *)
Definition watched_item (t : ItemType) (c : string)
    (now : Z) (iso : string) (now' : Z) (iso' : string) : Item :=
  match t with
  | Text => mkItem Text c iso false now
  | Image => mkItem Image c iso' false now'
  end.

(** The hotkey contract of the specification: a failed registration
    leaves the persisted hotkey as it was and reports failure. *)
Definition set_hotkey_failure_contract (env : Env) (k : string) (w : World)
  : Prop :=
  register_result env k ≠ Registered →
  (set_hotkey env k w).1 = false
  ∧ store_hotkey (store (set_hotkey env k w).2) = store_hotkey (store w).

(** The first fallback combination, other than [k], whose registration
    does not raise. *)
Definition first_fallback (env : Env) (k : string) : option string :=
  head (filter (λ fb, fb ≠ k ∧ register_result env fb ≠ Raises) fallbacks).

(** ** Sample data *)

Definition sample_item (c : string) (p : bool) (i : Z) : Item :=
  mkItem Text c "2024-01-01T00:00:00.000Z" p i.

Definition sample_world (h : list Item) (maxItems : Z) : World :=
  mkWorld h EmptyString EmptyString None (Some (mkWindow false false))
    (mkStore h maxItems "Super+V") EmptyString None [] [].

(** An environment in which every command fails and every accelerator
    is taken. *)
Definition hostile_env : Env :=
  mkEnv false (λ _, Some "exit code 1") (λ _, Raises).

(** An X11 session where the paste keychord works. *)
Definition x11_env : Env :=
  mkEnv false (λ cmd, if decide (cmd = "xdotool key --clearmodifiers ctrl+v")
                      then None else Some "exit code 1")
    (λ _, Registered).

(** ** More of the main process *)

(** The [add-recent-emoji] handler, as a function of the list kept
    under the store key [recentEmojis]: the result is both stored and
    returned. *)
Definition add_recent_emoji (emoji : string) (recentEmojis : list string)
  : list string :=
  let recentEmojis1 := filter (λ e, e ≠ emoji) recentEmojis in
  let recentEmojis2 := emoji :: recentEmojis1 in
  JS.slice recentEmojis2 0 20.

(** The [copy-text] and [copy-image] handlers. *)
Definition copy_text (text : string) (w : World) : bool * World :=
  (true, hideWindow (clipboard_writeText text w)).

Definition copy_image (dataURL : string) (w : World) : bool * World :=
  (true, hideWindow (clipboard_writeImage dataURL w)).

(** The part of [startClipboardWatcher] that runs before the interval
    is set: what the OS clipboard holds becomes the last-seen text and
    image. *)
Definition startClipboardWatcher_init (w : World) : World :=
  let lastImageDataURL :=
    match clipboard_image w with
    | None => EmptyString
    | Some dataURL => dataURL
    end in
  set_lastImageDataURL lastImageDataURL
    (set_lastClipboardContent (clipboard_text w) w).

(** What can happen to a running manager, one event at a time: another
    application puts something on the OS clipboard, the watcher runs,
    or the renderer invokes a handler. *)
Inductive Action :=
  | CopiedElsewhere (text : string) (image : option string)
  | WatcherRuns (now : Z) (iso : string) (now' : Z) (iso' : string)
  | InvokeTogglePin (index : Z)
  | InvokeDeleteItem (index : Z)
  | InvokeClearHistory
  | InvokePasteItem (item : Item)
  | InvokeCopyText (text : string)
  | InvokeCopyImage (dataURL : string)
  | InvokeSetHotkey (hotkeyString : string).

Definition perform (env : Env) (w : World) (a : Action) : World :=
  match a with
  | CopiedElsewhere text image => set_clipboard text image w
  | WatcherRuns now iso now' iso' => watcher_tick now iso now' iso' w
  | InvokeTogglePin index => (toggle_pin index w).2
  | InvokeDeleteItem index => (delete_item index w).2
  | InvokeClearHistory => (clear_history w).2
  | InvokePasteItem item => pasteItem_world env item w
  | InvokeCopyText text => (copy_text text w).2
  | InvokeCopyImage dataURL => (copy_image dataURL w).2
  | InvokeSetHotkey hotkeyString => (set_hotkey env hotkeyString w).2
  end.

(** The history in memory and the persisted one agree, contents are
    distinct, and the list respects a bound that is not negative. *)
Definition history_consistent (w : World) : Prop :=
  store_clipboardHistory (store w) = clipboardHistory w
  ∧ NoDup (content <$> clipboardHistory w)
  ∧ ((0 ≤ store_maxItems (store w))%Z →
     (Z.of_nat (length (clipboardHistory w)) ≤ store_maxItems (store w))%Z).

(** The tests of the watcher: is there a text, or an image, to capture? *)
Definition text_due (w : World) : bool :=
  JS.truthy (clipboard_text w)
  && bool_decide (clipboard_text w ≠ lastClipboardContent w)
  && bool_decide (0 < String.length (JS.trim (clipboard_text w))).

Definition image_due (w : World) : bool :=
  match clipboard_image w with
  | Some imageDataURL =>
      bool_decide (imageDataURL ≠ lastImageDataURL w)
      && bool_decide (100 < String.length imageDataURL)
  | None => false
  end.

(** What [history_consistent] is about. *)
Definition history_view (w : World) : list Item * list Item * Z :=
  (clipboardHistory w, store_clipboardHistory (store w), store_maxItems (store w)).

(** The events [pasteItem] starts with: the content goes to the OS
    clipboard and the window, if there is one, is hidden. *)
Definition stage_events (item : Item) (w : World) : list Event :=
  (if decide (item_type item = Image) then ClipboardWriteImage (content item)
   else ClipboardWriteText (content item))
  :: match mainWindow w with Some _ => [Hide] | None => [] end.

(** *** Window placement *)

(** [positionAtPointer]: the arguments of [setPosition], or [None]
    when there is no window.  Points and sizes are pairs of integers
    ([x], [y]) and ([width], [height]). *)
Definition positionAtPointer (mainWindow : option BrowserWindow)
    (cursorPoint : Z * Z) (workAreaSize : Z * Z) (windowBounds : Z * Z)
  : option (Z * Z) :=
  match mainWindow with
  | Some _ =>
      let width := workAreaSize.1 in
      let height := workAreaSize.2 in
      let x := (cursorPoint.1 + 10)%Z in
      let y := (cursorPoint.2 + 10)%Z in
      let x := if (x + windowBounds.1 >? width)%Z
               then (cursorPoint.1 - windowBounds.1 - 10)%Z else x in
      let y := if (y + windowBounds.2 >? height)%Z
               then (cursorPoint.2 - windowBounds.2 - 10)%Z else y in
      let x := Z.max 10 (Z.min x (width - windowBounds.1 - 10)) in
      let y := Z.max 10 (Z.min y (height - windowBounds.2 - 10)) in
      Some (x, y)
  | None => None
  end.

(** *** The toggle debounce *)

(** The state [toggleWindow] works on: whether the window exists and is
    visible, the flag [toggleInProgress], the debounce timers that have
    not fired yet and the [positionAtCursor] callbacks that have not
    run yet. *)
Record Picker := mkPicker {
  picker_window : bool;
  picker_visible : bool;
  toggleInProgress : bool;
  pending_resets : nat;
  pending_shows : nat;
}.

(** [showWindow]: under Wayland [positionAtCursor] calls back at once,
    under X11 after its [xdotool] commands have ended. *)
Definition picker_showWindow (wayland : bool) (p : Picker) : Picker :=
  if picker_window p then
    if wayland
    then mkPicker (picker_window p) true (toggleInProgress p)
           (pending_resets p) (pending_shows p)
    else mkPicker (picker_window p) (picker_visible p) (toggleInProgress p)
           (pending_resets p) (S (pending_shows p))
  else p.

Definition picker_hideWindow (p : Picker) : Picker :=
  if picker_window p then
    mkPicker (picker_window p) false (toggleInProgress p)
      (pending_resets p) (pending_shows p)
  else p.

Definition set_toggleInProgress (b : bool) (p : Picker) : Picker :=
  mkPicker (picker_window p) (picker_visible p) b
    (pending_resets p) (pending_shows p).

Definition toggleWindow (wayland : bool) (p : Picker) : Picker :=
  if negb (picker_window p) then p
  else if toggleInProgress p then p
  else
    let p1 := set_toggleInProgress true p in
    if picker_visible p1 then
      set_toggleInProgress false (picker_hideWindow p1)
    else
      let p2 := picker_showWindow wayland p1 in
      mkPicker (picker_window p2) (picker_visible p2) (toggleInProgress p2)
        (S (pending_resets p2)) (pending_shows p2).

(** What the event loop can deliver to the picker: the hotkey or a tray
    click, a debounce timer that fires after its 500 ms, a pending
    [positionAtCursor] callback (it shows the window), a [blur] of the
    window (it hides it). *)
Inductive PickerEvent := Toggle | ResetFires | ShowCallback | Blur.

Definition picker_step (wayland : bool) (p : Picker) (e : PickerEvent) : Picker :=
  match e with
  | Toggle => toggleWindow wayland p
  | ResetFires =>
      match pending_resets p with
      | O => p
      | S n =>
          mkPicker (picker_window p) (picker_visible p) false n (pending_shows p)
      end
  | ShowCallback =>
      match pending_shows p with
      | O => p
      | S n =>
          mkPicker (picker_window p) true (toggleInProgress p)
            (pending_resets p) n
      end
  | Blur => picker_hideWindow p
  end.

(** The picker after the constructor and [createWindow]. *)
Definition picker_initial : Picker := mkPicker true false false 0 0.

(** ** The renderer's view of the history *)

Module Renderer.

(** [Array.prototype.sort(compare)]: a stable sort; [compare a b] is
    negative when [a] goes first, positive when [b] goes first.  The
    entry in hand came before the sorted rest, so it stays in front of
    everything it does not have to follow. *)
Fixpoint insert_sorted {A} (compare : A → A → Z) (a : A) (l : list A) : list A :=
  match l with
  | [] => [a]
  | b :: l' =>
      if (compare a b <=? 0)%Z then a :: b :: l'
      else b :: insert_sorted compare a l'
  end.

Fixpoint sort {A} (compare : A → A → Z) (l : list A) : list A :=
  match l with
  | [] => []
  | a :: l' => insert_sorted compare a (sort compare l')
  end.

(** The comparison function of [renderClipboardHistory]. *)
Definition pinned_first (a b : Item) : Z :=
  if pinned a && negb (pinned b) then (-1)%Z
  else if negb (pinned a) && pinned b then 1%Z
  else 0%Z.

(** The order in which [renderClipboardHistory] shows a list. *)
Definition display_order (filteredHistory : list Item) : list Item :=
  sort pinned_first filteredHistory.

(** [togglePin(itemId)] and [deleteItem(itemId)] of the renderer: the
    identifier [createClipboardItem] was given, which is [item.id], is
    what reaches the handlers of the main process. *)
Definition togglePin (item : Item) (w : World) : bool * World :=
  toggle_pin (item_id item) w.

Definition deleteItem (item : Item) (w : World) : bool * World :=
  delete_item (item_id item) w.

End Renderer.

(** ** Reading a command line *)

(** How a POSIX shell cuts a simple command into words: blanks
    separate words, single quotes and backslashes quote as in
    [sh_word], letters, digits and a few punctuation characters stand
    for themselves; any other character outside quotes is refused.  In
    the states [InWord] and [InQuote] the first word of the result is
    the rest of the word being read. *)
Inductive LexState := Between | InWord | InQuote.

Definition is_plain (c : ascii) : bool :=
  let n := nat_of_ascii c in
  (48 <=? n)%nat && (n <=? 57)%nat
  || (65 <=? n)%nat && (n <=? 90)%nat
  || (97 <=? n)%nat && (n <=? 122)%nat
  || Ascii.eqb c "-" || Ascii.eqb c "_" || Ascii.eqb c "."
  || Ascii.eqb c "/" || Ascii.eqb c "+" || Ascii.eqb c ":".

Definition push_char (c : ascii) (words : list string) : list string :=
  match words with
  | [] => [String c EmptyString]
  | word :: words' => String c word :: words'
  end.

Fixpoint sh_split (st : LexState) (s : string) : option (list string) :=
  match s with
  | EmptyString =>
      match st with
      | Between => Some []
      | InWord => Some [EmptyString]
      | InQuote => None
      end
  | String c s' =>
      match st with
      | InQuote =>
          if Ascii.eqb c "'" then sh_split InWord s'
          else push_char c <$> sh_split InQuote s'
      | _ =>
          if Ascii.eqb c " " then
            match st with
            | Between => sh_split Between s'
            | _ => cons EmptyString <$> sh_split Between s'
            end
          else if Ascii.eqb c "'" then sh_split InQuote s'
          else if Ascii.eqb c "\" then
            match s' with
            | EmptyString => None
            | String d s'' => push_char d <$> sh_split InWord s''
            end
          else if is_plain c then push_char c <$> sh_split InWord s'
          else None
      end
  end.

Fixpoint all_plain (word : string) : bool :=
  match word with
  | EmptyString => true
  | String c word' => is_plain c && all_plain word'
  end.

(** The words of the command that types a text, before the text. *)
Definition typing_command_words (env : Env) : list string :=
  if isWaylandSession env then ["wtype"; "--delay"; "1"]
  else ["xdotool"; "type"; "--clearmodifiers"; "--delay"; "1"].

(** The command that sends the paste keychord. *)
Definition keychord_command (env : Env) : string :=
  if isWaylandSession env then "wtype -M ctrl v -m ctrl"
  else "xdotool key --clearmodifiers ctrl+v".

(** The command [pasteItem] runs first to give the focus back, if any. *)
Definition activate_commands (env : Env) (w : World) : list string :=
  match lastActiveWindowId w with
  | Some wid =>
      if negb (isWaylandSession env) && JS.truthy wid
      then ["xdotool windowactivate --sync " +:+ wid] else []
  | None => []
  end.

(** ** When a paste does not resolve *)

(** The commands the chain runs on [commands]: it stops before a
    command that holds a NUL and after a command that succeeds. *)
Fixpoint chain_prefix (env : Env) (commands : list string) : list string :=
  match commands with
  | [] => []
  | cmd :: rest =>
      if has_NUL cmd then []
      else cmd :: match exec_error env cmd with
                  | None => []
                  | Some _ => chain_prefix env rest
                  end
  end.

(** [exec] raises somewhere in the chain run on [commands]. *)
Fixpoint chain_raises (env : Env) (commands : list string) : bool :=
  match commands with
  | [] => false
  | cmd :: rest =>
      if has_NUL cmd then true
      else match exec_error env cmd with
           | None => false
           | Some _ => chain_raises env rest
           end
  end.

(** [exec] raises during [pasteItem]: on the activation command, or on
    the typing command of a text with a NUL, which is reached when the
    keychord command failed. *)
Definition paste_raises (env : Env) (item : Item) (w : World) : bool :=
  existsb has_NUL (activate_commands env w)
  || bool_decide (exec_error env (keychord_command env) ≠ None)
     && bool_decide (item_type item ≠ Image)
     && has_NUL (content item).

(** The commands [pasteItem] runs. *)
Definition paste_commands_run (env : Env) (item : Item) (w : World)
  : list string :=
  if existsb has_NUL (activate_commands env w) then []
  else activate_commands env w ++ chain_prefix env (paste_commands env item).



(** A text with a NUL in the middle. *)
Definition text_with_NUL : string := String "a" (String "000" (String "b" EmptyString)).

(** * Properties *)

(** ** Strings *)

Lemma app_String c s t : String c s +:+ t = String c (s +:+ t).
Proof. reflexivity. Qed.

Lemma app_Empty_l s : EmptyString +:+ s = s.
Proof. reflexivity. Qed.

Lemma app_Empty_r s : s +:+ EmptyString = s.
Proof. induction s as [|c s IH]; [done|]. by rewrite app_String, IH. Qed.

Lemma app_string_assoc s t u : (s +:+ t) +:+ u = s +:+ (t +:+ u).
Proof. induction s as [|c s IH]; [done|]. by rewrite !app_String, IH. Qed.

(** ** Shell escaping *)

Lemma sh_word_replace_quotes s :
  sh_word InSingle (replace_quotes s +:+ "'") = Some s.
Proof.
  induction s as [|c s IH]; [done|].
  simpl replace_quotes. destruct (Ascii.eqb_spec c "'") as [->|Hc].
  - rewrite app_string_assoc. change (Some (String "'" s)) with (String "'" <$> Some s).
    rewrite <- IH. reflexivity.
  - rewrite app_String. simpl. apply Ascii.eqb_neq in Hc. by rewrite Hc, IH.
Qed.

Lemma replace_quotes_split s :
  replace_quotes s = (split_quotes s).1 +:+ join_after "'\''" (split_quotes s).2.
Proof.
  induction s as [|c s IH]; [done|].
  simpl. destruct (split_quotes s) as [p ps]. simpl in IH.
  destruct (Ascii.eqb c "'"); simpl; rewrite IH.
  - by rewrite app_Empty_l.
  - by rewrite app_String.
Qed.

(** C8. For every string [s], [shellEscape] returns the single-quoted
    literal of [s]: an opening quote, [s] with each single quote
    replaced by the escape sequence quote-backslash-quote-quote, a
    closing quote; and a shell reads that literal back as one word
    that is exactly [s], so the content cannot leave the quotes. *)
Theorem shellEscape_single_quoted (s : string) :
  shellEscape (Some s) = single_quoted_literal s ∧
  sh_word Unquoted (shellEscape (Some s)) = Some s.
Proof.
  split.
  - unfold shellEscape, single_quoted_literal.
    rewrite replace_quotes_split. destruct (split_quotes s) as [p ps]; simpl.
    by rewrite app_string_assoc.
  - unfold shellEscape. rewrite app_String, app_Empty_l. simpl.
    apply sh_word_replace_quotes.
Qed.

Example shellEscape_plain : shellEscape (Some "abc") = "'abc'".
Proof. reflexivity. Qed.

Example shellEscape_quote : shellEscape (Some "it's") = "'it'\''s'".
Proof. reflexivity. Qed.

Example shellEscape_null : shellEscape None = "''".
Proof. reflexivity. Qed.

Example sh_word_injection :
  sh_word Unquoted (shellEscape (Some "'; rm -rf ~; '")) = Some "'; rm -rf ~; '".
Proof. reflexivity. Qed.

Example sh_word_naive_quote : sh_word Unquoted ("'" +:+ "a'b" +:+ "'") = None.
Proof. reflexivity. Qed.

(** ** Search *)

Lemma elem_of_all_ascii c : c ∈ all_ascii.
Proof.
  unfold all_ascii. rewrite <- (ascii_nat_embedding c).
  apply list_elem_of_fmap_2, elem_of_seq. pose proof (nat_ascii_bounded c). lia.
Qed.

(** The lower-case forms of two code units are equal exactly when the
    two are the same letter in whatever case: checked on all pairs. *)
Lemma lower_char_same_letter a b :
  JS.lower_char a = JS.lower_char b ↔ same_letter a b.
Proof.
  assert (Hall : forallb (λ a, forallb (λ b,
            bool_decide (JS.lower_char a = JS.lower_char b ↔ same_letter a b))
            all_ascii) all_ascii = true) by (vm_compute; reflexivity).
  rewrite forallb_forall in Hall.
  specialize (Hall a (proj1 (list_elem_of_In _ _) (elem_of_all_ascii a))).
  rewrite forallb_forall in Hall.
  specialize (Hall b (proj1 (list_elem_of_In _ _) (elem_of_all_ascii b))).
  by apply bool_decide_eq_true_1 in Hall.
Qed.

Lemma same_ignoring_case_lower s t :
  same_ignoring_case s t ↔ JS.toLowerCase s = JS.toLowerCase t.
Proof.
  split.
  - induction 1 as [|a b s t Hab _ IH]; [done|].
    apply lower_char_same_letter in Hab. simpl. by rewrite Hab, IH.
  - revert t. induction s as [|a s IH]; intros [|b t] H; simplify_eq/=.
    + constructor.
    + constructor; [by apply lower_char_same_letter | auto].
Qed.

Lemma toLowerCase_app s t :
  JS.toLowerCase (s +:+ t) = JS.toLowerCase s +:+ JS.toLowerCase t.
Proof. induction s as [|c s IH]; [done|]. by rewrite app_String; simpl; rewrite IH. Qed.

Lemma toLowerCase_app_inv c a b :
  JS.toLowerCase c = a +:+ b →
  ∃ ca cb, c = ca +:+ cb ∧ JS.toLowerCase ca = a ∧ JS.toLowerCase cb = b.
Proof.
  revert c. induction a as [|x a IH]; intros c H.
  - by exists EmptyString, c.
  - destruct c as [|y c]; [done|]. rewrite app_String in H. simpl in H.
    injection H as Hx H. destruct (IH _ H) as (ca & cb & -> & <- & <-).
    exists (String y ca), cb. by rewrite <- Hx.
Qed.

Lemma startsWith_spec s sub :
  JS.startsWith s sub ↔ ∃ post, s = sub +:+ post.
Proof.
  revert s. induction sub as [|b sub IH]; intros s.
  - split; [by exists s|]. by destruct s.
  - destruct s as [|a s]; simpl.
    + split; [done|]. by intros [post ?].
    + rewrite andb_True, IH. split.
      * intros [Hab [post ->]]. apply Is_true_true, Ascii.eqb_eq in Hab as ->.
        by exists post.
      * intros [post H]. rewrite app_String in H. injection H as -> ->.
        split; [by apply Is_true_true, Ascii.eqb_eq | by exists post].
Qed.

Lemma includes_spec s sub :
  JS.includes s sub ↔ ∃ pre post, s = pre +:+ sub +:+ post.
Proof.
  induction s as [|a s IH].
  - cbn [JS.includes]. rewrite orb_True, startsWith_spec. split.
    + intros [[post ->]|[]]. by exists EmptyString, post.
    + intros (pre & post & H). left. destruct pre; [|done]. by exists post.
  - cbn [JS.includes]. rewrite orb_True, startsWith_spec, IH. split.
    + intros [[post ->]|(pre & post & ->)].
      * by exists EmptyString, post.
      * by exists (String a pre), post.
    + intros ([|x pre] & post & H).
      * left. by exists post.
      * right. rewrite app_String in H. injection H as -> ->. by exists pre, post.
Qed.

Lemma includes_toLowerCase_spec text query :
  JS.includes (JS.toLowerCase text) (JS.toLowerCase query)
  ↔ contains_ignoring_case text query.
Proof.
  rewrite includes_spec. split.
  - intros (pre & post & H).
    apply toLowerCase_app_inv in H as (cpre & rest & -> & _ & H).
    apply toLowerCase_app_inv in H as (mid & cpost & -> & H & _).
    exists cpre, mid, cpost. split; [done|]. by apply same_ignoring_case_lower.
  - intros (pre & mid & post & -> & H). apply same_ignoring_case_lower in H.
    exists (JS.toLowerCase pre), (JS.toLowerCase post).
    by rewrite !toLowerCase_app, H.
Qed.

Global Instance contains_ignoring_case_dec text query :
  Decision (contains_ignoring_case text query).
Proof.
  refine (cast_if (decide (JS.includes (JS.toLowerCase text) (JS.toLowerCase query))));
    by rewrite <- includes_toLowerCase_spec.
Defined.


Lemma filter_all_elem {A} (P : A → Prop) `{!∀ x, Decision (P x)} (l : list A) :
  (∀ x, x ∈ l → P x) → filter P l = l.
Proof.
  induction l as [|x l IH]; intros HP; [done|].
  rewrite filter_cons_True by apply HP, list_elem_of_here.
  rewrite IH; [done|]. intros y Hy. by apply HP, list_elem_of_further.
Qed.




Example search_history_mixed_case :
  search_history "ELL"
    (sample_world [sample_item "Hello" false 3; sample_item "world" false 2;
                   sample_item "bELLs" true 1] 50)
  = [sample_item "Hello" false 3; sample_item "bELLs" true 1].
Proof. reflexivity. Qed.

Example search_history_no_match :
  search_history "zzz"
    (sample_world [sample_item "Hello" false 3; sample_item "world" false 2] 50)
  = [].
Proof. reflexivity. Qed.

Example lower_char_letters :
  JS.toLowerCase "AZ az@[`{09" = "az az@[`{09".
Proof. reflexivity. Qed.

Example lower_char_latin1 :
  JS.lower_char <$> (ascii_of_nat <$> [192; 201; 214; 215; 216; 222; 223; 255])
  = ascii_of_nat <$> [224; 233; 246; 215; 248; 254; 223; 255].
Proof. reflexivity. Qed.

Example search_history_accented :
  search_history (String (ascii_of_nat 233) EmptyString)
    (sample_world [sample_item (String (ascii_of_nat 201) "t" +:+ "e") false 1] 50)
  = [sample_item (String (ascii_of_nat 201) "t" +:+ "e") false 1].
Proof. reflexivity. Qed.

Example same_letter_cases :
  same_letter "a" "A" ∧ same_letter "Z" "z" ∧ ¬ same_letter "a" "b"
  ∧ ¬ same_letter "@" "`" ∧ ¬ same_letter "[" "{".
Proof.
  split; [|split; [|split; [|split]]].
  - apply (bool_decide_unpack (same_letter "a" "A")). vm_compute. exact I.
  - apply (bool_decide_unpack (same_letter "Z" "z")). vm_compute. exact I.
  - apply (bool_decide_unpack (¬ same_letter "a" "b")). vm_compute. exact I.
  - apply (bool_decide_unpack (¬ same_letter "@" "`")). vm_compute. exact I.
  - apply (bool_decide_unpack (¬ same_letter "[" "{")). vm_compute. exact I.
Qed.

(** ** History: bound and eviction *)

Lemma slice_0_take {A} (l : list A) (n : Z) :
  (0 ≤ n)%Z → JS.slice l 0 n = take (Z.to_nat n) l.
Proof.
  intros Hn. unfold JS.slice, JS.clamp_index.
  destruct (Z.ltb_spec n 0) as [|_]; [lia|].
  change (0 <? 0)%Z with false. cbv iota.
  rewrite (Z.min_l 0) by lia. rewrite Z.sub_0_r.
  change (Z.to_nat 0) with 0%nat. rewrite drop_0.
  destruct (Z.le_ge_cases n (Z.of_nat (length l))) as [Hle|Hge].
  - by rewrite Z.min_l by lia.
  - rewrite Z.min_r by lia. rewrite Nat2Z.id.
    rewrite firstn_all. symmetry. apply take_ge. lia.
Qed.

Lemma slice_0_sublist {A} (l : list A) (n : Z) : JS.slice l 0 n `sublist_of` l.
Proof.
  unfold JS.slice. etrans; [apply sublist_take | apply sublist_drop].
Qed.

Lemma addToHistory_list_take maxItems item h :
  (0 ≤ maxItems)%Z →
  addToHistory_list maxItems item h = take (Z.to_nat maxItems) (promote item h).
Proof. intros. unfold addToHistory_list. by rewrite slice_0_take. Qed.

Lemma addToHistory_clipboardHistory item w :
  clipboardHistory (addToHistory item w)
  = addToHistory_list (store_maxItems (store w)) item (clipboardHistory w).
Proof. unfold addToHistory, notify_renderer. by destruct (window_alive _). Qed.

(** C9. After every [addToHistory] call with a bound that is a count
    (not negative), the whole list, pinned entries included, is at most
    [maxItems] long: the list is cut to its first [maxItems] entries
    whatever their flags. *)
Theorem addToHistory_length_le_maxItems (item : Item) (w : World) :
  (0 ≤ store_maxItems (store w))%Z →
  clipboardHistory (addToHistory item w)
  = take (Z.to_nat (store_maxItems (store w))) (promote item (clipboardHistory w))
  ∧ (Z.of_nat (length (clipboardHistory (addToHistory item w)))
     ≤ store_maxItems (store w))%Z.
Proof.
  intros Hmax. rewrite addToHistory_clipboardHistory.
  rewrite addToHistory_list_take by done. split; [done|].
  rewrite length_take. lia.
Qed.

Lemma addToHistory_length_le_maxItems_witness :
  let w := sample_world [sample_item "a" true 2; sample_item "b" true 1] 2 in
  clipboardHistory (addToHistory (sample_item "c" true 3) w)
  = [sample_item "c" true 3; sample_item "a" true 2]
  ∧ (Z.of_nat (length (clipboardHistory (addToHistory (sample_item "c" true 3) w)))
     ≤ 2)%Z.
Proof.
  exact (addToHistory_length_le_maxItems (sample_item "c" true 3)
           (sample_world [sample_item "a" true 2; sample_item "b" true 1] 2)
           ltac:(simpl; lia)).
Defined.

(** C1, as stated, fails: with [maxItems = 1] and a history holding one
    pinned entry, adding a new entry removes the pinned one. *)
Lemma eviction_removes_pinned :
  ¬ eviction_keeps_pinned (sample_item "new" false 2)
      (sample_world [sample_item "kept" true 1] 1).
Proof.
  intros H. specialize (H (sample_item "kept" true 1)).
  assert (Hin : sample_item "kept" true 1
                ∈ clipboardHistory
                    (addToHistory (sample_item "new" false 2)
                       (sample_world [sample_item "kept" true 1] 1))).
  { apply H; [|done]. vm_compute. apply list_elem_of_further, list_elem_of_here. }
  vm_compute in Hin. apply list_elem_of_singleton in Hin. discriminate Hin.
Qed.

(** C1, amended. After [addToHistory] with a bound that is not negative,
    the unpinned entries are at most [maxItems], and the eviction looks
    at positions only: an entry of the deduplicated list with the new
    entry in front, pinned or not, is kept at its position when that
    position is below [maxItems] and is removed otherwise. *)
Theorem addToHistory_eviction_by_position (item : Item) (w : World) :
  (0 ≤ store_maxItems (store w))%Z →
  (Z.of_nat (length (unpinned (clipboardHistory (addToHistory item w))))
   ≤ store_maxItems (store w))%Z
  ∧ ∀ i : nat,
      clipboardHistory (addToHistory item w) !! i
      = if decide (Z.of_nat i < store_maxItems (store w))%Z
        then promote item (clipboardHistory w) !! i else None.
Proof.
  intros Hmax. rewrite addToHistory_clipboardHistory.
  rewrite addToHistory_list_take by done. split.
  - unfold unpinned.
    pose proof (length_filter (λ e, pinned e = false)
                  (take (Z.to_nat (store_maxItems (store w)))
                     (promote item (clipboardHistory w)))) as Hlen.
    rewrite length_take in Hlen. lia.
  - intros i. destruct (decide (Z.of_nat i < store_maxItems (store w))%Z).
    + apply lookup_take_lt. lia.
    + apply lookup_take_ge. lia.
Qed.

Lemma addToHistory_eviction_by_position_witness :
  let item := sample_item "new" false 2 in
  let w := sample_world [sample_item "kept" true 1] 1 in
  (Z.of_nat (length (unpinned (clipboardHistory (addToHistory item w)))) ≤ 1)%Z
  ∧ ∀ i : nat,
      clipboardHistory (addToHistory item w) !! i
      = if decide (Z.of_nat i < 1)%Z
        then promote item (clipboardHistory w) !! i else None.
Proof.
  apply (addToHistory_eviction_by_position (sample_item "new" false 2)
           (sample_world [sample_item "kept" true 1] 1)).
  simpl. lia.
Defined.

(** ** History: deduplication and recency *)

Lemma promote_NoDup item h :
  NoDup (content <$> h) → NoDup (content <$> promote item h).
Proof.
  intros Hh. unfold promote. rewrite fmap_cons. apply NoDup_cons. split.
  - intros (e & Heq & He)%list_elem_of_fmap.
    apply list_elem_of_filter in He as [Hne _]. by apply Hne.
  - eapply sublist_NoDup; [done|]. apply fmap_sublist, sublist_filter.
Qed.

Lemma addToHistory_list_NoDup maxItems item h :
  NoDup (content <$> h) →
  NoDup (content <$> addToHistory_list maxItems item h).
Proof.
  intros Hh. eapply sublist_NoDup; [by apply (promote_NoDup item)|].
  apply fmap_sublist, slice_0_sublist.
Qed.

Lemma addAll_NoDup maxItems items h :
  NoDup (content <$> h) → NoDup (content <$> addAll maxItems items h).
Proof.
  revert h. induction items as [|x items IH]; intros h Hh; [done|].
  apply IH. by apply addToHistory_list_NoDup.
Qed.

Lemma recency_NoDup items h :
  NoDup (content <$> h) → NoDup (content <$> recency items h).
Proof.
  revert h. induction items as [|x items IH]; intros h Hh; [done|].
  apply IH. by apply promote_NoDup.
Qed.

(** Cutting a list to [S n] entries before removing an entry that
    occurs at most once does not change the first [n] entries of the
    result. *)
Lemma take_filter_take (c : string) (l : list Item) (n : nat) :
  NoDup (content <$> l) →
  take n (filter (λ e, content e ≠ c) (take (S n) l))
  = take n (filter (λ e, content e ≠ c) l).
Proof.
  revert n. induction l as [|y l IH]; intros n Hl; [done|].
  rewrite fmap_cons in Hl. apply NoDup_cons in Hl as [Hy Hl].
  rewrite firstn_cons. rewrite !filter_cons.
  destruct (decide (content y ≠ c)) as [Hne|Heq].
  - destruct n as [|n]; [done|]. rewrite !firstn_cons. f_equal. by apply IH.
  - apply dec_stable in Heq.
    assert (Hall : ∀ k : list Item, k `sublist_of` l →
                     filter (λ e, content e ≠ c) k = k).
    { intros k Hk. apply filter_all_elem. intros e He Hc.
      apply Hy. rewrite Heq, <- Hc. apply list_elem_of_fmap_2.
      by eapply elem_of_sublist. }
    rewrite (Hall l), (Hall (take n l)) by (done || apply sublist_take).
    apply take_idemp.
Qed.

Lemma addAll_snoc maxItems items x h :
  addAll maxItems (items ++ [x]) h
  = addToHistory_list maxItems x (addAll maxItems items h).
Proof. unfold addAll. by rewrite foldl_snoc. Qed.

Lemma recency_snoc items x h :
  recency (items ++ [x]) h = promote x (recency items h).
Proof. unfold recency. by rewrite foldl_snoc. Qed.

Lemma take_promote_take (n : nat) (x : Item) (l : list Item) :
  NoDup (content <$> l) →
  take n (promote x (take n l)) = take n (promote x l).
Proof.
  intros Hl. destruct n as [|n]; [done|]. unfold promote.
  rewrite !firstn_cons. f_equal.
  rewrite <- (take_filter_take _ l n) by done.
  rewrite <- (take_filter_take _ (take (S n) l) n).
  - by rewrite take_idemp.
  - eapply sublist_NoDup; [done|]. apply fmap_sublist, sublist_take.
Qed.

Lemma addAll_recency (maxItems : Z) (items : list Item) (h : list Item) :
  NoDup (content <$> h) → (0 ≤ maxItems)%Z → items ≠ [] →
  addAll maxItems items h = take (Z.to_nat maxItems) (recency items h).
Proof.
  intros Hh Hmax. induction items as [|x items IH] using rev_ind; [done|].
  intros _. rewrite addAll_snoc, recency_snoc.
  rewrite addToHistory_list_take by done.
  destruct (decide (items = [])) as [->|Hne]; [done|].
  rewrite IH by done. apply take_promote_take. by apply recency_NoDup.
Qed.

Lemma addToHistory_all_clipboardHistory items w :
  clipboardHistory (addToHistory_all items w)
  = addAll (store_maxItems (store w)) items (clipboardHistory w)
  ∧ store_maxItems (store (addToHistory_all items w)) = store_maxItems (store w).
Proof.
  induction items as [|x items IH] using rev_ind; [done|].
  unfold addToHistory_all in *. rewrite foldl_snoc, addAll_snoc.
  destruct IH as [IHh IHm]. rewrite addToHistory_clipboardHistory, IHh, IHm.
  split; [done|]. rewrite <- IHm. unfold addToHistory, notify_renderer.
  by destruct (window_alive _).
Qed.

(** C2. For every run of [addToHistory] calls on a history whose
    entries have distinct contents (the empty history of a first start
    among them), the resulting list has at most one entry per content;
    it is the recency order of the run, cut to the bound: an add drops
    the earlier entry with the same content, wherever it sits and
    whether pinned or not, and puts the new entry first, so the entry
    added last is at the head. *)
Theorem addToHistory_one_entry_per_content (items : list Item) (x : Item)
    (w : World) :
  NoDup (content <$> clipboardHistory w) →
  (1 ≤ store_maxItems (store w))%Z →
  let w' := addToHistory_all (items ++ [x]) w in
  NoDup (content <$> clipboardHistory w')
  ∧ clipboardHistory w'
    = take (Z.to_nat (store_maxItems (store w)))
        (x :: filter (λ e, content e ≠ content x)
                (recency items (clipboardHistory w)))
  ∧ head (clipboardHistory w') = Some x.
Proof.
  intros Hh Hmax w'. unfold w'.
  destruct (addToHistory_all_clipboardHistory (items ++ [x]) w) as [-> _].
  set (maxItems := store_maxItems (store w)) in *.
  set (h := clipboardHistory w) in *.
  assert (Heq : addAll maxItems (items ++ [x]) h
    = take (Z.to_nat maxItems)
        (x :: filter (λ e, content e ≠ content x) (recency items h))).
  { rewrite addAll_recency by (done || lia || by destruct items).
    by rewrite recency_snoc. }
  split; [by apply addAll_NoDup|]. split; [done|].
  rewrite Heq. destruct (Z.to_nat maxItems) as [|n] eqn:Hn; [lia|done].
Qed.

Lemma addToHistory_one_entry_per_content_witness :
  let hello := sample_item "hello" false 1 in
  let world := sample_item "world" false 2 in
  let hello' := sample_item "hello" false 3 in
  let w' := addToHistory_all ([hello; world] ++ [hello']) (sample_world [] 50) in
  NoDup (content <$> clipboardHistory w')
  ∧ clipboardHistory w'
    = take (Z.to_nat 50)
        (hello' :: filter (λ e, content e ≠ content hello')
                     (recency [hello; world] []))
  ∧ head (clipboardHistory w') = Some hello'.
Proof.
  intros hello world hello'.
  apply (addToHistory_one_entry_per_content [hello; world] hello'
           (sample_world [] 50)).
  - simpl. constructor.
  - simpl. lia.
Defined.

Example addAll_hello_world_hello :
  content <$> clipboardHistory
    (addToHistory_all [sample_item "hello" false 1; sample_item "world" false 2;
                       sample_item "hello" false 3] (sample_world [] 50))
  = ["hello"; "world"].
Proof. reflexivity. Qed.

Example addAll_evicts_oldest :
  content <$> clipboardHistory
    (addToHistory_all [sample_item "a" false 1; sample_item "b" false 2;
                       sample_item "c" false 3] (sample_world [] 2))
  = ["c"; "b"].
Proof. reflexivity. Qed.

Example addToHistory_pinned_evicted :
  content <$> clipboardHistory
    (addToHistory (sample_item "d" false 4)
       (sample_world [sample_item "c" false 3; sample_item "b" true 2] 2))
  = ["d"; "c"].
Proof. reflexivity. Qed.

(** ** History operations: write-through and notification *)

Lemma new_events_app w w' evs :
  trace w' = trace w ++ evs → new_events w w' = evs.
Proof. unfold new_events. intros ->. apply drop_app_length. Qed.

Lemma saveHistory_notify_effects h w :
  let w' := notify_renderer (saveHistory (set_clipboardHistory h w)) in
  clipboardHistory w' = h
  ∧ store_clipboardHistory (store w') = h
  ∧ new_events w w'
    = StoreSet_clipboardHistory h ::
      (if window_alive w then [Send "clipboard-updated" h] else []).
Proof.
  unfold notify_renderer, saveHistory, store_set_clipboardHistory, window_alive.
  simpl. destruct (mainWindow w) as [[[] ?]|]; simpl;
    (split; [done|]; split; [done|]; apply new_events_app; simpl;
     by rewrite <- ?app_assoc).
Qed.

Lemma saveHistory_effects h w :
  let w' := saveHistory (set_clipboardHistory h w) in
  clipboardHistory w' = h
  ∧ store_clipboardHistory (store w') = h
  ∧ new_events w w' = [StoreSet_clipboardHistory h].
Proof. simpl. split; [done|]. split; [done|]. by apply new_events_app. Qed.

(** C6, as stated, fails: pinning the only entry of a history, with the
    window alive, writes the list to the store and sends nothing. *)
Lemma toggle_pin_sends_no_notification :
  let w := sample_world [sample_item "a" false 1] 50 in
  (toggle_pin 0 w).1 = true ∧ ¬ persists_then_notifies w (toggle_pin 0 w).2.
Proof.
  split; [done|]. intros (i & j & channel & Hij & _ & Hj).
  destruct j as [|j]; [lia|]. vm_compute in Hj. discriminate Hj.
Qed.

(** C6, amended. [addToHistory] and [clearHistory] write the updated
    list through to the store and then, when the window exists and is
    not destroyed, send [clipboard-updated] with that list: the store
    write comes first.  The [toggle-pin] and [delete-item] handlers,
    when the index names an entry, return [true] and write the updated
    list (the flag at the index flipped, or the entry at the index
    removed) through to the store, and send no notification; for any
    other index they return [false] and change nothing. *)
Theorem history_operations_effects (item : Item) (index : Z) (w : World) :
  (let w' := addToHistory item w in
   clipboardHistory w'
   = addToHistory_list (store_maxItems (store w)) item (clipboardHistory w)
   ∧ store_clipboardHistory (store w') = clipboardHistory w'
   ∧ new_events w w'
     = StoreSet_clipboardHistory (clipboardHistory w') ::
       (if window_alive w
        then [Send "clipboard-updated" (clipboardHistory w')] else []))
  ∧ (let w' := clearHistory w in
     clipboardHistory w' = []
     ∧ store_clipboardHistory (store w') = []
     ∧ new_events w w'
       = StoreSet_clipboardHistory [] ::
         (if window_alive w then [Send "clipboard-updated" []] else []))
  ∧ (let r := toggle_pin index w in
     match JS.get (clipboardHistory w) index with
     | Some _ =>
         r.1 = true
         ∧ clipboardHistory r.2
           = alter (λ it, set_pinned (negb (pinned it)) it) (Z.to_nat index)
               (clipboardHistory w)
         ∧ store r.2
           = mkStore (clipboardHistory r.2) (store_maxItems (store w))
               (store_hotkey (store w))
         ∧ new_events w r.2 = [StoreSet_clipboardHistory (clipboardHistory r.2)]
     | None => r = (false, w)
     end)
  ∧ (let r := delete_item index w in
     match JS.get (clipboardHistory w) index with
     | Some _ =>
         r.1 = true
         ∧ clipboardHistory r.2 = delete (Z.to_nat index) (clipboardHistory w)
         ∧ store r.2
           = mkStore (clipboardHistory r.2) (store_maxItems (store w))
               (store_hotkey (store w))
         ∧ new_events w r.2 = [StoreSet_clipboardHistory (clipboardHistory r.2)]
     | None => r = (false, w)
     end).
Proof.
  split; [|split; [|split]].
  - unfold addToHistory.
    destruct (saveHistory_notify_effects
      (addToHistory_list (store_maxItems (store w)) item (clipboardHistory w)) w)
      as (Hh & Hs & He).
    cbv zeta. by rewrite Hh, Hs, He.
  - apply (saveHistory_notify_effects [] w).
  - unfold toggle_pin. destruct (JS.get _ _); [|done]. cbn [fst snd].
    repeat split. by apply new_events_app.
  - unfold delete_item. destruct (JS.get _ _) as [it|] eqn:Hget; [|done].
    cbn [fst snd].
    assert (Hsplice : JS.splice1 (clipboardHistory w) index
                      = delete (Z.to_nat index) (clipboardHistory w)).
    { unfold JS.get in Hget. unfold JS.splice1, JS.clamp_index.
      destruct (Z.ltb_spec index 0); [done|].
      apply lookup_lt_Some in Hget.
      rewrite Z.min_l by lia. by rewrite delete_take_drop. }
    rewrite Hsplice. repeat split. by apply new_events_app.
Qed.

Example toggle_pin_flips :
  clipboardHistory
    (toggle_pin 1 (sample_world [sample_item "c" false 3; sample_item "b" false 2] 2)).2
  = [sample_item "c" false 3; sample_item "b" true 2].
Proof. reflexivity. Qed.

Example delete_item_removes :
  clipboardHistory
    (delete_item 0 (sample_world [sample_item "c" false 3; sample_item "b" false 2] 2)).2
  = [sample_item "b" false 2].
Proof. reflexivity. Qed.

Example toggle_pin_out_of_range :
  (toggle_pin 7 (sample_world [sample_item "c" false 3] 2)).1 = false
  ∧ (toggle_pin (-1) (sample_world [sample_item "c" false 3] 2)).1 = false.
Proof. split; reflexivity. Qed.

(** ** The fallback chain *)

Section Chain.

Context (env : Env).

Lemma run_commands_cons cmd cmds w :
  run_commands (cmd :: cmds) w = run_commands cmds (emit (Exec cmd) w).
Proof. reflexivity. Qed.

Lemma run_commands_snoc cmds cmd w :
  run_commands (cmds ++ [cmd]) w = emit (Exec cmd) (run_commands cmds w).
Proof. unfold run_commands. by rewrite foldl_snoc. Qed.

Lemma run_commands_trace cmds w :
  trace (run_commands cmds w) = trace w ++ (Exec <$> cmds).
Proof.
  revert w. induction cmds as [|cmd cmds IH]; intros w.
  - simpl. by rewrite app_nil_r.
  - rewrite run_commands_cons, IH. simpl. by rewrite <- app_assoc.
Qed.

Lemma tryCommandsSequentially_cons {A} cmd rest
    (cb : option Error → option bool → World → Outcome A) w :
  tryCommandsSequentially env (cmd :: rest) cb w
  = if has_NUL cmd then Throws w
    else match exec_error env cmd with
         | None => cb None (Some true) (emit (Exec cmd) w)
         | Some e =>
             match rest with
             | [] => cb (Some e) None (emit (Exec cmd) w)
             | _ :: _ => tryCommandsSequentially env rest cb (emit (Exec cmd) w)
             end
         end.
Proof. reflexivity. Qed.


(** The chain as a function of the list: whether it raises, and the
    commands it runs. *)
Lemma tryCommandsSequentially_prefix (commands : list string) :
  ∃ err res, ∀ A (cb : option Error → option bool → World → Outcome A) w,
    tryCommandsSequentially env commands cb w
    = if chain_raises env commands
      then Throws (run_commands (chain_prefix env commands) w)
      else cb err res (run_commands (chain_prefix env commands) w).
Proof.
  induction commands as [|cmd rest IH].
  - by exists (Some "no-commands"), None.
  - destruct IH as (err & res & IH). cbn [chain_raises chain_prefix].
    destruct (has_NUL cmd) eqn:Hnul.
    { exists None, None. intros A cb w.
      by rewrite tryCommandsSequentially_cons, Hnul. }
    destruct (exec_error env cmd) as [e|] eqn:Hcmd.
    + destruct rest as [|cmd' rest'].
      * exists (Some e), None. intros A cb w.
        by rewrite tryCommandsSequentially_cons, Hnul, Hcmd.
      * exists err, res. intros A cb w.
        rewrite tryCommandsSequentially_cons, Hnul, Hcmd. by rewrite IH.
    + exists None, (Some true). intros A cb w.
      by rewrite tryCommandsSequentially_cons, Hnul, Hcmd.
Qed.


Lemma paste_commands_nonempty item : paste_commands env item ≠ [].
Proof. unfold paste_commands. by destruct (isWaylandSession env). Qed.

Lemma has_NUL_app s t : has_NUL (s +:+ t) = has_NUL s || has_NUL t.
Proof.
  induction s as [|c s IH]; [done|].
  rewrite app_String. cbn [has_NUL]. by rewrite IH, orb_assoc.
Qed.

Lemma has_NUL_replace_quotes s : has_NUL (replace_quotes s) = has_NUL s.
Proof.
  induction s as [|c s IH]; [done|]. cbn [replace_quotes].
  destruct (Ascii.eqb_spec c "'") as [->|Hc].
  - by rewrite has_NUL_app, IH.
  - cbn [has_NUL]. by rewrite IH.
Qed.

Lemma has_NUL_shellEscape s : has_NUL (shellEscape (Some s)) = has_NUL s.
Proof.
  unfold shellEscape. rewrite !has_NUL_app, has_NUL_replace_quotes.
  change (has_NUL "'") with false. by rewrite orb_false_r.
Qed.

Lemma has_NUL_keychord : has_NUL (keychord_command env) = false.
Proof. unfold keychord_command. by destruct (isWaylandSession env). Qed.

(** The chain of [pasteItem]: the keychord, then for a text the typing
    command, then under X11 the typing of what [xclip] reads. *)
Lemma paste_commands_shape item :
  ∃ typing rest,
    paste_commands env item
    = keychord_command env
      :: (if decide (item_type item ≠ Image) then typing :: rest else [])
    ∧ has_NUL typing = has_NUL (content item)
    ∧ Forall (λ cmd, has_NUL cmd = false) rest.
Proof.
  unfold paste_commands, keychord_command.
  destruct (isWaylandSession env); eexists _, _; (split; [reflexivity|]).
  - split; [|constructor]. by rewrite has_NUL_app, has_NUL_shellEscape.
  - split; [by rewrite has_NUL_app, has_NUL_shellEscape|].
    by repeat constructor.
Qed.

Lemma paste_chain_raises item :
  chain_raises env (paste_commands env item)
  = bool_decide (exec_error env (keychord_command env) ≠ None)
    && bool_decide (item_type item ≠ Image)
    && has_NUL (content item).
Proof.
  destruct (paste_commands_shape item) as (typing & rest & -> & Htyping & Hrest).
  cbn [chain_raises]. rewrite has_NUL_keychord.
  destruct (exec_error env (keychord_command env)) as [e|] eqn:Hk.
  - rewrite bool_decide_eq_true_2 by done.
    destruct (decide (item_type item ≠ Image)) as [Ht|Ht].
    + rewrite bool_decide_eq_true_2 by done. cbn [chain_raises andb].
      rewrite Htyping. destruct (has_NUL (content item)); [done|].
      destruct (exec_error env typing); [|done].
      clear Htyping. induction Hrest as [|c rest Hc _ IH]; [done|].
      cbn [chain_raises]. rewrite Hc. by destruct (exec_error env c).
    + by rewrite bool_decide_eq_false_2 by done.
  - by rewrite bool_decide_eq_false_2 by (intros H; by apply H).
Qed.

Lemma stage_lastActiveWindowId item w :
  lastActiveWindowId (stage item w) = lastActiveWindowId w.
Proof.
  unfold stage, hideWindow.
  destruct (decide (item_type item = Image)); simpl;
    by destruct (mainWindow w).
Qed.

(** [pasteItem] as a function of the environment: whether [exec]
    raises, and otherwise the world [resolve] gets with [true]. *)
Lemma pasteItem_outcome (item : Item) (w : World) A
    (resolve : bool → World → Outcome A) :
  pasteItem env item resolve w
  = if paste_raises env item w
    then Throws (run_commands (paste_commands_run env item w) (stage item w))
    else resolve true
           (set_lastActiveWindowId None
              (run_commands (paste_commands_run env item w) (stage item w))).
Proof.
  destruct (tryCommandsSequentially_prefix (paste_commands env item))
    as (err & res & Hrun).
  unfold pasteItem, setTimeout, paste_raises, paste_commands_run,
    activate_commands.
  fold (stage item w). rewrite stage_lastActiveWindowId.
  assert (Hchain : ∀ w0,
    tryCommandsSequentially env (paste_commands env item)
      (λ _ _ w', resolve true (set_lastActiveWindowId None w')) w0
    = if chain_raises env (paste_commands env item)
      then Throws (run_commands (chain_prefix env (paste_commands env item)) w0)
      else resolve true
             (set_lastActiveWindowId None
                (run_commands (chain_prefix env (paste_commands env item)) w0))).
  { intros w0. by rewrite Hrun. }
  rewrite <- paste_chain_raises.
  destruct (lastActiveWindowId w) as [wid|].
  - destruct (negb (isWaylandSession env) && JS.truthy wid).
    + unfold exec at 1. cbn [existsb].
      destruct (has_NUL ("xdotool windowactivate --sync " +:+ wid)); [done|].
      cbn [orb app]. rewrite run_commands_cons. apply Hchain.
    + cbn [existsb orb app]. apply Hchain.
  - cbn [existsb orb app]. apply Hchain.
Qed.

Lemma pasteItem_world_eq (item : Item) (w : World) :
  pasteItem_world env item w
  = (if paste_raises env item w then id else set_lastActiveWindowId None)
      (run_commands (paste_commands_run env item w) (stage item w)).
Proof.
  unfold pasteItem_world. rewrite pasteItem_outcome.
  by destruct (paste_raises env item w).
Qed.

End Chain.






Example tryCommandsSequentially_stops_at_success :
  tryCommandsSequentially x11_env
    (paste_commands x11_env (sample_item "hi" false 1))
    (λ err res w, Returns (err, res, trace w) w) (sample_world [] 50)
  = Returns (None, Some true, [Exec "xdotool key --clearmodifiers ctrl+v"])
      (run_commands ["xdotool key --clearmodifiers ctrl+v"] (sample_world [] 50)).
Proof. reflexivity. Qed.

Example tryCommandsSequentially_all_fail :
  tryCommandsSequentially hostile_env
    (paste_commands hostile_env (sample_item "it's" false 1))
    (λ err res w, Returns (err, res, trace w) w) (sample_world [] 50)
  = Returns
      (Some "exit code 1", None,
       [Exec "xdotool key --clearmodifiers ctrl+v";
        Exec "xdotool type --clearmodifiers --delay 1 'it'\''s'";
        Exec "xclip -selection clipboard -o | xdotool type --clearmodifiers --file -"])
      (run_commands (paste_commands hostile_env (sample_item "it's" false 1))
         (sample_world [] 50)).
Proof. reflexivity. Qed.

Example tryCommandsSequentially_no_commands :
  tryCommandsSequentially hostile_env []
    (λ err res w, Returns (err, res) w) (sample_world [] 50)
  = Returns (Some "no-commands", None) (sample_world [] 50).
Proof. reflexivity. Qed.

Example tryCommandsSequentially_raises_on_NUL :
  tryCommandsSequentially hostile_env ["true"; text_with_NUL; "true"]
    (λ err res w, Returns (err, res) w) (sample_world [] 50)
  = Throws (run_commands ["true"] (sample_world [] 50)).
Proof. reflexivity. Qed.

Example pasteItem_all_fail :
  ∃ w', pasteItem hostile_env (sample_item "hi" false 1) (λ b w, Returns b w)
          (sample_world [] 50) = Returns true w'.
Proof. eexists. reflexivity. Qed.

Example pasteItem_NUL_keychord_works :
  ∃ w', pasteItem x11_env (sample_item text_with_NUL false 1) (λ b w, Returns b w)
          (sample_world [] 50) = Returns true w'.
Proof. eexists. reflexivity. Qed.

(** ** Paste followed by a watcher run *)

Lemma run_commands_watcher_view cmds w :
  watcher_view (run_commands cmds w) = watcher_view w.
Proof.
  induction cmds as [|cmd cmds IH] using rev_ind; [done|].
  rewrite run_commands_snoc. exact IH.
Qed.

Lemma hideWindow_watcher_view w : watcher_view (hideWindow w) = watcher_view w.
Proof. unfold hideWindow. by destruct (mainWindow w). Qed.

Lemma stage_watcher_view item w :
  watcher_view (stage item w)
  = (clipboardHistory w, lastClipboardContent w, lastImageDataURL w, store w,
     if decide (item_type item = Image) then EmptyString else content item,
     if decide (item_type item = Image) then Some (content item) else None).
Proof.
  unfold stage. rewrite hideWindow_watcher_view.
  by destruct (decide (item_type item = Image)).
Qed.

Lemma trim_accepted_truthy c :
  0 < String.length (JS.trim c) → JS.truthy c = true.
Proof. destruct c; [simpl; lia | done]. Qed.

(** The history after a watcher run, from what the run reads. *)
Lemma watcher_tick_clipboardHistory now iso now' iso' w :
  clipboardHistory (watcher_tick now iso now' iso' w)
  = let maxItems := store_maxItems (store w) in
    let h1 :=
      if decide (clipboard_text w ≠ lastClipboardContent w
                 ∧ accepted_by_watcher Text (clipboard_text w))
      then addToHistory_list maxItems
             (mkItem Text (clipboard_text w) iso false now) (clipboardHistory w)
      else clipboardHistory w in
    match clipboard_image w with
    | Some d =>
        if decide (d ≠ lastImageDataURL w ∧ accepted_by_watcher Image d)
        then addToHistory_list maxItems (mkItem Image d iso' false now') h1
        else h1
    | None => h1
    end.
Proof.
  assert (Htext :
    clipboardHistory (watcher_text now iso w)
    = (if decide (clipboard_text w ≠ lastClipboardContent w
                  ∧ accepted_by_watcher Text (clipboard_text w))
       then addToHistory_list (store_maxItems (store w))
              (mkItem Text (clipboard_text w) iso false now) (clipboardHistory w)
       else clipboardHistory w)
    ∧ store_maxItems (store (watcher_text now iso w)) = store_maxItems (store w)
    ∧ clipboard_image (watcher_text now iso w) = clipboard_image w
    ∧ lastImageDataURL (watcher_text now iso w) = lastImageDataURL w).
  { unfold watcher_text.
    destruct (decide (clipboard_text w ≠ lastClipboardContent w
                      ∧ accepted_by_watcher Text (clipboard_text w)))
      as [[Hne Hadm]|Hno].
    - rewrite (trim_accepted_truthy _ Hadm).
      rewrite !bool_decide_eq_true_2 by done. cbn [andb].
      cbn [set_lastClipboardContent clipboardHistory store clipboard_image
           lastImageDataURL].
      rewrite addToHistory_clipboardHistory.
      unfold addToHistory, notify_renderer.
      by destruct (window_alive _).
    - destruct (JS.truthy _); [|done].
      destruct (bool_decide_reflect (clipboard_text w ≠ lastClipboardContent w));
        [|done].
      destruct (bool_decide_reflect (0 < String.length (JS.trim (clipboard_text w))));
        [|done].
      by destruct Hno. }
  destruct Htext as (Hh & Hm & Hi & Hl).
  unfold watcher_tick, watcher_image. rewrite Hi, Hl. cbv zeta.
  destruct (clipboard_image w) as [d|]; [|done].
  destruct (decide (d ≠ lastImageDataURL w ∧ accepted_by_watcher Image d))
    as [[Hne Hadm]|Hno].
  - rewrite !bool_decide_eq_true_2 by done. cbn [andb].
    cbn [set_lastImageDataURL clipboardHistory].
    by rewrite addToHistory_clipboardHistory, Hh, Hm.
  - destruct (bool_decide_reflect (d ≠ lastImageDataURL w)); [|done].
    destruct (bool_decide_reflect (100 < String.length d)); [|done].
    by destruct Hno.
Qed.

Lemma pasteItem_world_watcher_view env item w :
  watcher_view (pasteItem_world env item w) = watcher_view (stage item w).
Proof.
  rewrite pasteItem_world_eq.
  rewrite <- (run_commands_watcher_view (paste_commands_run env item w)
                (stage item w)).
  by destruct (paste_raises env item w).
Qed.

Lemma paste_then_tick_view env item now iso now' iso' w :
  ∃ w', paste_then_tick env item now iso now' iso' w
        = watcher_tick now iso now' iso' w'
        ∧ watcher_view w' = watcher_view (stage item w).
Proof.
  exists (pasteItem_world env item w). split; [done|].
  apply pasteItem_world_watcher_view.
Qed.

(** C3, as stated, fails: with "b" captured last, pasting the older
    entry "a" makes the next watcher run add a new entry with content
    "a" (which takes the place of the pasted one). *)
Lemma paste_older_entry_is_recaptured :
  let a := sample_item "a" true 1 in
  let b := sample_item "b" false 2 in
  let w := set_lastClipboardContent "b" (sample_world [b; a] 50) in
  ¬ self_write_suppressed x11_env a 3 "2024-01-01T00:00:01.000Z"
      3 "2024-01-01T00:00:01.000Z" w.
Proof.
  intros a b w H. apply H.
  exists (mkItem Text "a" "2024-01-01T00:00:01.000Z" false 3).
  split; [|split; [|done]].
  - vm_compute. apply list_elem_of_here.
  - vm_compute. intros Hin. apply elem_of_cons in Hin as [Heq|Hin].
    + discriminate Heq.
    + apply list_elem_of_singleton in Hin. discriminate Hin.
Qed.

(** C3, amended. After [pasteItem(entry)] has resolved, one watcher run
    with the OS clipboard holding what [pasteItem] staged leaves the
    history as it was when the content of the entry equals what the
    watcher last saw on that channel (text or image), or fails the
    watcher's admission test (blank text, an image data URL of at most
    100 characters).  Otherwise the run adds, through [addToHistory], a
    fresh unpinned entry with that content, which takes the place of
    the entry with the same content. *)
Theorem paste_then_tick_history (env : Env) (item : Item)
    (now : Z) (iso : string) (now' : Z) (iso' : string) (w : World) :
  clipboardHistory (paste_then_tick env item now iso now' iso' w)
  = if decide (content item ≠ last_seen (item_type item) w
               ∧ accepted_by_watcher (item_type item) (content item))
    then addToHistory_list (store_maxItems (store w))
           (watched_item (item_type item) (content item) now iso now' iso')
           (clipboardHistory w)
    else clipboardHistory w.
Proof.
  destruct (paste_then_tick_view env item now iso now' iso' w)
    as (w' & -> & Hview).
  rewrite stage_watcher_view in Hview. unfold watcher_view in Hview.
  injection Hview as Hh Ht Hi Hs Hct Hci.
  rewrite watcher_tick_clipboardHistory. rewrite Hh, Ht, Hi, Hs, Hct, Hci.
  cbv zeta. destruct (item_type item); simpl.
  - repeat case_decide; done.
  - rewrite !(decide_False (P := EmptyString ≠ lastClipboardContent w ∧ 0 < 0))
      by lia.
    done.
Qed.

Example paste_latest_entry_is_suppressed :
  let b := sample_item "b" false 2 in
  let w := set_lastClipboardContent "b" (sample_world [b; sample_item "a" true 1] 50) in
  clipboardHistory (paste_then_tick x11_env b 3 "t" 3 "t" w) = clipboardHistory w.
Proof. reflexivity. Qed.

Example trim_no_break_space :
  JS.trim (String (ascii_of_nat 160) " a b " +:+ String (ascii_of_nat 160) EmptyString)
  = "a b"
  ∧ JS.trim (String (ascii_of_nat 160) EmptyString) = EmptyString
  ∧ JS.trim (String (ascii_of_nat 133) EmptyString)
    = String (ascii_of_nat 133) EmptyString.
Proof. repeat split. Qed.

Example paste_no_break_space_not_captured :
  let nbsp := mkItem Text (String (ascii_of_nat 160) EmptyString) "t0" false 1 in
  let w := set_lastClipboardContent "b" (sample_world [sample_item "b" false 2] 50) in
  clipboardHistory (paste_then_tick x11_env nbsp 3 "t" 3 "t" w) = clipboardHistory w.
Proof. reflexivity. Qed.

Example paste_NUL_then_tick :
  let item := sample_item text_with_NUL false 1 in
  let w := set_lastClipboardContent "b" (sample_world [sample_item "b" false 2] 50) in
  paste_raises hostile_env item w = true
  ∧ content <$> clipboardHistory (paste_then_tick hostile_env item 3 "t" 3 "t" w)
    = [text_with_NUL; "b"].
Proof. split; reflexivity. Qed.

Example paste_older_entry_history :
  let a := sample_item "a" true 1 in
  let b := sample_item "b" false 2 in
  let w := set_lastClipboardContent "b" (sample_world [b; a] 50) in
  clipboardHistory (paste_then_tick x11_env a 3 "t" 3 "t" w)
  = [mkItem Text "a" "t" false 3; b].
Proof. reflexivity. Qed.

(** ** Hotkeys *)

Section Hotkeys.

Context (env : Env).

Lemma globalShortcut_register_store k w :
  match globalShortcut_register env k w with
  | Returns _ w' => register_result env k ≠ Raises ∧ store w' = store w
  | Throws w' => register_result env k = Raises ∧ w' = w
  end.
Proof.
  unfold globalShortcut_register. by destruct (register_result env k).
Qed.

Lemma try_fallbacks_store primaryHotkey fbs w :
  let r := try_fallbacks env primaryHotkey fbs w in
  match head (filter (λ fb, fb ≠ primaryHotkey ∧ register_result env fb ≠ Raises)
                fbs) with
  | Some fb => r.1 = true ∧ store_hotkey (store r.2) = fb
  | None => r.1 = false ∧ store r.2 = store w
  end.
Proof.
  revert w. induction fbs as [|fb fbs IH]; intros w; [done|].
  cbn [try_fallbacks]. rewrite filter_cons.
  destruct (decide (fb ≠ primaryHotkey)) as [Hne|Heq].
  - pose proof (globalShortcut_register_store fb w) as Hreg.
    destruct (globalShortcut_register env fb w) as [b w'|w'].
    + destruct Hreg as [Hok _]. by rewrite decide_True.
    + destruct Hreg as [Hraise ->]. rewrite decide_False by tauto. apply IH.
  - rewrite decide_False by tauto. apply IH.
Qed.

End Hotkeys.

(** C5, as stated, fails: when every accelerator is taken,
    [set-hotkey] still answers [true], and the persisted hotkey has
    become the new string. *)
Lemma set_hotkey_reports_success_on_failure :
  ¬ set_hotkey_failure_contract hostile_env "Ctrl+Alt+X" (sample_world [] 50).
Proof.
  intros H. destruct H as [Hfalse _]; [done|]. vm_compute in Hfalse.
  discriminate Hfalse.
Qed.

(** C5, amended. [set-hotkey] persists the new hotkey string before it
    registers it.  When the registration does not raise, the handler
    returns [true] and the persisted hotkey is the new string.  When it
    raises, the start-up registration runs again: the first fallback
    combination, other than the new string, whose registration does
    not raise is persisted and the handler returns [true]; when there
    is no such fallback, the persisted hotkey stays the new string. *)
Theorem set_hotkey_persists_before_registering (env : Env) (k : string)
    (w : World) :
  let r := set_hotkey env k w in
  match register_result env k with
  | Raises =>
      match first_fallback env k with
      | Some fb => r.1 = true ∧ store_hotkey (store r.2) = fb
      | None => store_hotkey (store r.2) = k
      end
  | _ => r.1 = true ∧ store_hotkey (store r.2) = k
  end.
Proof.
  unfold set_hotkey, setupGlobalShortcuts.
  set (w2 := store_set_hotkey k (globalShortcut_unregisterAll w)).
  assert (Hk : store_hotkey (store w2) = k) by done.
  pose proof (globalShortcut_register_store env k w2) as Hreg.
  destruct (globalShortcut_register env k w2) as [b w3|w3].
  - destruct Hreg as [Hok Hs]. cbn [fst snd]. rewrite Hs, Hk.
    by destruct (register_result env k).
  - destruct Hreg as [Hraise ->]. cbv zeta. rewrite Hraise, Hk.
    pose proof (globalShortcut_register_store env k w2) as Hreg.
    destruct (globalShortcut_register env k w2) as [b w3|w3].
    + by destruct Hreg.
    + destruct Hreg as [_ ->]. cbn [fst snd].
      pose proof (try_fallbacks_store env k fallbacks w2) as Hfb.
      fold (first_fallback env k) in Hfb. cbv zeta in Hfb.
      destruct (first_fallback env k).
      * by destruct Hfb as [_ ->].
      * by destruct Hfb as [_ ->].
Qed.

Example set_hotkey_refused_is_success :
  let env := mkEnv false (λ _, None) (λ _, Refused) in
  let r := set_hotkey env "Ctrl+Alt+X" (sample_world [] 50) in
  r.1 = true ∧ store_hotkey (store r.2) = "Ctrl+Alt+X" ∧ shortcuts r.2 = [].
Proof. repeat split. Qed.

Example set_hotkey_falls_back :
  let env := mkEnv false (λ _, None)
               (λ k, if decide (k = "Alt+V") then Registered else Raises) in
  let r := set_hotkey env "Ctrl+Alt+X" (sample_world [] 50) in
  r.1 = true ∧ store_hotkey (store r.2) = "Alt+V" ∧ shortcuts r.2 = ["Alt+V"].
Proof. repeat split. Qed.

Example set_hotkey_all_taken :
  let r := set_hotkey hostile_env "Ctrl+Alt+X" (sample_world [] 50) in
  r.1 = true ∧ store_hotkey (store r.2) = "Ctrl+Alt+X" ∧ shortcuts r.2 = [].
Proof. repeat split. Qed.

(** * Further properties of the main process *)

(** ** Recent emojis *)

Lemma add_recent_emoji_take emoji l :
  add_recent_emoji emoji l = emoji :: take 19 (filter (λ e, e ≠ emoji) l).
Proof. unfold add_recent_emoji. by rewrite slice_0_take. Qed.

(** X1. [add-recent-emoji] puts the emoji first, keeps it once only,
    keeps after it earlier emojis in their order, and returns at most
    20 emojis. *)
Theorem add_recent_emoji_front (emoji : string) (recentEmojis : list string) :
  ∃ rest,
    add_recent_emoji emoji recentEmojis = emoji :: rest
    ∧ (emoji ∉ rest)
    ∧ rest `sublist_of` recentEmojis
    ∧ length (add_recent_emoji emoji recentEmojis) ≤ 20.
Proof.
  exists (take 19 (filter (λ e, e ≠ emoji) recentEmojis)).
  rewrite add_recent_emoji_take. repeat split.
  - intros Hin. apply elem_of_take in Hin as (i & Hin & _).
    apply list_elem_of_lookup_2, list_elem_of_filter in Hin as [Hne _].
    by apply Hne.
  - etrans; [apply sublist_take | apply sublist_filter].
  - simpl. rewrite length_take. lia.
Qed.

(** X2. On a list without duplicates [add-recent-emoji] returns a list
    without duplicates, and adding the emoji that was added last
    changes nothing. *)
Theorem add_recent_emoji_again (emoji : string) (recentEmojis : list string) :
  NoDup recentEmojis →
  NoDup (add_recent_emoji emoji recentEmojis)
  ∧ add_recent_emoji emoji (add_recent_emoji emoji recentEmojis)
    = add_recent_emoji emoji recentEmojis.
Proof.
  intros Hl. rewrite !add_recent_emoji_take.
  set (rest := take 19 (filter (λ e, e ≠ emoji) recentEmojis)).
  assert (Hrest : emoji ∉ rest).
  { intros Hin. apply elem_of_take in Hin as (i & Hin & _).
    apply list_elem_of_lookup_2, list_elem_of_filter in Hin as [Hne _].
    by apply Hne. }
  split.
  - apply NoDup_cons. split; [done|].
    eapply sublist_NoDup; [exact Hl|].
    etrans; [apply sublist_take | apply sublist_filter].
  - f_equal. rewrite filter_cons_False by (intros Hne; by apply Hne).
    rewrite filter_all_elem by (intros e He ->; by apply Hrest).
    unfold rest. apply take_idemp.
Qed.

Lemma add_recent_emoji_again_witness :
  NoDup (add_recent_emoji "b" ["a"; "b"; "c"])
  ∧ add_recent_emoji "b" (add_recent_emoji "b" ["a"; "b"; "c"])
    = add_recent_emoji "b" ["a"; "b"; "c"].
Proof.
  apply (add_recent_emoji_again "b" ["a"; "b"; "c"]).
  refine (bool_decide_unpack (NoDup ["a"; "b"; "c"]) _). vm_compute. exact I.
Defined.

Example add_recent_emoji_promotes :
  add_recent_emoji "b" ["a"; "b"; "c"] = ["b"; "a"; "c"].
Proof. reflexivity. Qed.

(** ** Pinning and deleting by position *)

Lemma JS_get_lookup {A} (l : list A) (index : Z) (a : A) :
  JS.get l index = Some a ↔ (0 ≤ index)%Z ∧ l !! Z.to_nat index = Some a.
Proof.
  unfold JS.get. destruct (Z.ltb_spec index 0) as [Hneg|Hpos].
  - split; [done | intros [? _]; lia].
  - split; [intros H; split; [lia | done] | by intros [_ ?]].
Qed.

Lemma toggle_pin_clipboardHistory index w :
  clipboardHistory (toggle_pin index w).2
  = match JS.get (clipboardHistory w) index with
    | Some _ =>
        alter (λ it, set_pinned (negb (pinned it)) it) (Z.to_nat index)
          (clipboardHistory w)
    | None => clipboardHistory w
    end.
Proof. unfold toggle_pin. by destruct (JS.get _ _). Qed.

(** X3. The [toggle-pin] handler flips the flag of the entry at the
    given position and nothing else: contents and order stay, and a
    second call with the same position gives back the history the
    first call started from. *)
Theorem toggle_pin_twice (index : Z) (w : World) :
  (∀ j : nat,
     clipboardHistory (toggle_pin index w).2 !! j
     = if decide (Z.of_nat j = index)
       then (λ it, set_pinned (negb (pinned it)) it) <$> clipboardHistory w !! j
       else clipboardHistory w !! j)
  ∧ content <$> clipboardHistory (toggle_pin index w).2
    = content <$> clipboardHistory w
  ∧ clipboardHistory (toggle_pin index (toggle_pin index w).2).2
    = clipboardHistory w.
Proof.
  set (flip := λ it, set_pinned (negb (pinned it)) it).
  assert (Hflip : ∀ it, flip (flip it) = it).
  { intros [t c ts p i]. unfold flip, set_pinned. simpl. by rewrite negb_involutive. }
  rewrite !toggle_pin_clipboardHistory.
  destruct (JS.get (clipboardHistory w) index) as [it|] eqn:Hget.
  - apply JS_get_lookup in Hget as [Hpos Hit]. repeat split.
    + intros j. rewrite list_lookup_alter.
      destruct (decide (Z.to_nat index = j)) as [<-|Hne].
      * by rewrite decide_True by lia.
      * by rewrite decide_False by lia.
    + apply list_eq. intros j. rewrite !list_lookup_fmap, list_lookup_alter.
      destruct (decide (Z.to_nat index = j)) as [<-|Hne]; [|done].
      by destruct (clipboardHistory w !! Z.to_nat index).
    + assert (Hget' : JS.get (alter flip (Z.to_nat index) (clipboardHistory w)) index
                      = Some (flip it)).
      { apply JS_get_lookup. split; [done|].
        by rewrite list_lookup_alter_eq, Hit. }
      fold flip. rewrite Hget'. rewrite list_alter_alter_eq.
      apply list_alter_id. intros x. apply Hflip.
  - rewrite Hget. repeat split. intros j.
    destruct (decide (Z.of_nat j = index)) as [<-|]; [|done].
    unfold JS.get in Hget. destruct (Z.ltb_spec (Z.of_nat j) 0); [lia|].
    rewrite Nat2Z.id in Hget. by rewrite Hget.
Qed.

(** X4. When the position names an entry, the [delete-item] handler
    returns [true] and removes that entry alone: the list is one
    shorter, the entries before the position stay where they are and
    the entries after it move up by one. *)
Theorem delete_item_removes_one (index : Z) (w : World) (it : Item) :
  JS.get (clipboardHistory w) index = Some it →
  (delete_item index w).1 = true
  ∧ clipboardHistory (delete_item index w).2
    = delete (Z.to_nat index) (clipboardHistory w)
  ∧ length (clipboardHistory (delete_item index w).2)
    = length (clipboardHistory w) - 1
  ∧ ∀ j : nat,
      clipboardHistory (delete_item index w).2 !! j
      = clipboardHistory w !! (if decide (j < Z.to_nat index) then j else S j).
Proof.
  intros Hget. unfold delete_item. rewrite Hget. cbn [fst snd].
  apply JS_get_lookup in Hget as [Hpos Hit].
  assert (Hh : clipboardHistory
                 (saveHistory (set_clipboardHistory
                    (JS.splice1 (clipboardHistory w) index) w))
               = delete (Z.to_nat index) (clipboardHistory w)).
  { simpl. unfold JS.splice1, JS.clamp_index.
    destruct (Z.ltb_spec index 0); [lia|].
    apply lookup_lt_Some in Hit.
    rewrite Z.min_l by lia. by rewrite delete_take_drop. }
  rewrite Hh. repeat split.
  - apply length_delete. by eexists.
  - intros j. apply list_lookup_delete.
Qed.

Lemma delete_item_removes_one_witness :
  let w := sample_world [sample_item "c" false 3; sample_item "b" false 2] 2 in
  (delete_item 0 w).1 = true
  ∧ clipboardHistory (delete_item 0 w).2 = delete (Z.to_nat 0) (clipboardHistory w)
  ∧ length (clipboardHistory (delete_item 0 w).2) = length (clipboardHistory w) - 1
  ∧ ∀ j : nat,
      clipboardHistory (delete_item 0 w).2 !! j
      = clipboardHistory w !! (if decide (j < Z.to_nat 0) then j else S j).
Proof.
  apply (delete_item_removes_one 0
           (sample_world [sample_item "c" false 3; sample_item "b" false 2] 2)
           (sample_item "c" false 3)).
  reflexivity.
Defined.

(** ** Searching for what was just added *)

Lemma same_ignoring_case_refl s : same_ignoring_case s s.
Proof. by apply same_ignoring_case_lower. Qed.



(** ** The clipboard watcher *)

Lemma addToHistory_frame item w :
  lastClipboardContent (addToHistory item w) = lastClipboardContent w
  ∧ lastImageDataURL (addToHistory item w) = lastImageDataURL w
  ∧ clipboard_text (addToHistory item w) = clipboard_text w
  ∧ clipboard_image (addToHistory item w) = clipboard_image w
  ∧ store_maxItems (store (addToHistory item w)) = store_maxItems (store w)
  ∧ store_hotkey (store (addToHistory item w)) = store_hotkey (store w)
  ∧ store_clipboardHistory (store (addToHistory item w))
    = clipboardHistory (addToHistory item w).
Proof.
  unfold addToHistory, notify_renderer. by destruct (window_alive _).
Qed.

Lemma watcher_text_unchanged now iso w :
  clipboard_text w = lastClipboardContent w → watcher_text now iso w = w.
Proof.
  intros Heq. unfold watcher_text.
  rewrite (bool_decide_eq_false_2 (clipboard_text w ≠ lastClipboardContent w))
    by (intros Hne; by apply Hne).
  by rewrite andb_false_r.
Qed.

Lemma watcher_image_unchanged now iso w :
  (∀ d, clipboard_image w = Some d → d = lastImageDataURL w) →
  watcher_image now iso w = w.
Proof.
  intros Heq. unfold watcher_image. destruct (clipboard_image w) as [d|]; [|done].
  rewrite (bool_decide_eq_false_2 (d ≠ lastImageDataURL w)); [done|].
  intros Hne. by apply Hne, Heq.
Qed.

Lemma watcher_image_text_fields now iso w :
  clipboard_text (watcher_image now iso w) = clipboard_text w
  ∧ lastClipboardContent (watcher_image now iso w) = lastClipboardContent w.
Proof.
  unfold watcher_image. destruct (clipboard_image w) as [d|]; [|done].
  destruct (_ && _); [|done]. simpl.
  by destruct (addToHistory_frame (mkItem Image d iso false now) w)
    as (-> & _ & -> & _).
Qed.

Lemma watcher_text_not_due now iso w :
  text_due w = false → watcher_text now iso w = w.
Proof. unfold text_due, watcher_text. by intros ->. Qed.

Lemma watcher_image_not_due now iso w :
  image_due w = false → watcher_image now iso w = w.
Proof.
  unfold image_due, watcher_image. destruct (clipboard_image w); [|done].
  by intros ->.
Qed.

Lemma text_due_watcher_text now iso w :
  text_due (watcher_text now iso w) = false.
Proof.
  destruct (text_due w) eqn:Hdue.
  - unfold watcher_text. unfold text_due in Hdue. rewrite Hdue.
    unfold text_due. simpl.
    destruct (addToHistory_frame
      (mkItem Text (clipboard_text w) iso false now) w) as (_ & _ & -> & _).
    rewrite (bool_decide_eq_false_2 (clipboard_text w ≠ clipboard_text w))
      by (intros Hne; by apply Hne).
    by rewrite andb_false_r.
  - by rewrite watcher_text_not_due.
Qed.

Lemma image_due_watcher_image now iso w :
  image_due (watcher_image now iso w) = false.
Proof.
  destruct (image_due w) eqn:Hdue.
  - unfold watcher_image. unfold image_due in Hdue.
    destruct (clipboard_image w) as [d|] eqn:Hd; [|done]. rewrite Hdue.
    unfold image_due. simpl.
    destruct (addToHistory_frame (mkItem Image d iso false now) w)
      as (_ & _ & _ & -> & _).
    rewrite Hd.
    by rewrite (bool_decide_eq_false_2 (d ≠ d)) by (intros Hne; by apply Hne).
  - by rewrite watcher_image_not_due.
Qed.

Lemma text_due_watcher_image now iso w :
  text_due (watcher_image now iso w) = text_due w.
Proof.
  unfold text_due.
  by destruct (watcher_image_text_fields now iso w) as [-> ->].
Qed.

(** X6. What the watcher has looked at once it does not capture again:
    a second run of the watcher, with the OS clipboard as the first run
    found it, changes nothing at all, neither the history nor the
    store nor the trace. *)
Theorem watcher_tick_twice (now1 : Z) (iso1 : string) (now1' : Z) (iso1' : string)
    (now2 : Z) (iso2 : string) (now2' : Z) (iso2' : string) (w : World) :
  watcher_tick now2 iso2 now2' iso2' (watcher_tick now1 iso1 now1' iso1' w)
  = watcher_tick now1 iso1 now1' iso1' w.
Proof.
  unfold watcher_tick.
  set (w1 := watcher_text now1 iso1 w).
  set (w2 := watcher_image now1' iso1' w1).
  assert (Htext : watcher_text now2 iso2 w2 = w2).
  { apply watcher_text_not_due. unfold w2. rewrite text_due_watcher_image.
    apply text_due_watcher_text. }
  rewrite Htext. apply watcher_image_not_due, image_due_watcher_image.
Qed.

(** X7. What the OS clipboard holds when the watcher is started is not
    captured: [startClipboardWatcher] takes it as already seen, and a
    run of the watcher right after changes nothing. *)
Theorem watcher_tick_after_start (now : Z) (iso : string) (now' : Z) (iso' : string)
    (w : World) :
  watcher_tick now iso now' iso' (startClipboardWatcher_init w)
  = startClipboardWatcher_init w.
Proof.
  unfold watcher_tick.
  assert (Htext : watcher_text now iso (startClipboardWatcher_init w)
                  = startClipboardWatcher_init w).
  { apply watcher_text_unchanged. reflexivity. }
  rewrite Htext. apply watcher_image_unchanged.
  unfold startClipboardWatcher_init. simpl. by intros d ->.
Qed.

Lemma elem_of_addToHistory_list e maxItems item h :
  e ∈ addToHistory_list maxItems item h → e = item ∨ e ∈ h.
Proof.
  intros He. eapply elem_of_sublist in He; [|apply slice_0_sublist].
  apply elem_of_cons in He as [->|He]; [by left|].
  apply list_elem_of_filter in He as [_ He]. by right.
Qed.

(** X8. A run of the watcher adds only what it found on the OS
    clipboard and had not seen: every entry of the history after the
    run was there before, or is unpinned, carries the text (or image)
    of the OS clipboard, differs from the last-seen value of its
    channel and passes the watcher's test (a text that is not blank, an
    image data URL of more than 100 characters). *)
Theorem watcher_tick_adds_only_new (now : Z) (iso : string) (now' : Z)
    (iso' : string) (w : World) (e : Item) :
  e ∈ clipboardHistory (watcher_tick now iso now' iso' w) →
  e ∈ clipboardHistory w
  ∨ (pinned e = false
     ∧ accepted_by_watcher (item_type e) (content e)
     ∧ content e ≠ last_seen (item_type e) w
     ∧ match item_type e with
       | Text => clipboard_text w = content e
       | Image => clipboard_image w = Some (content e)
       end).
Proof.
  rewrite watcher_tick_clipboardHistory. cbv zeta.
  set (h1 := if decide (clipboard_text w ≠ lastClipboardContent w
                        ∧ accepted_by_watcher Text (clipboard_text w))
             then addToHistory_list (store_maxItems (store w))
                    (mkItem Text (clipboard_text w) iso false now)
                    (clipboardHistory w)
             else clipboardHistory w).
  assert (Hh1 : e ∈ h1 →
    e ∈ clipboardHistory w
    ∨ (pinned e = false
       ∧ accepted_by_watcher (item_type e) (content e)
       ∧ content e ≠ last_seen (item_type e) w
       ∧ match item_type e with
         | Text => clipboard_text w = content e
         | Image => clipboard_image w = Some (content e)
         end)).
  { unfold h1. case_decide as Hc; [|by left].
    intros [->|He]%elem_of_addToHistory_list; [right|by left].
    by destruct Hc. }
  destruct (clipboard_image w) as [d|] eqn:Hd; [|done].
  case_decide as Hc; [|done].
  intros [->|He]%elem_of_addToHistory_list; [right|by apply Hh1].
  by destruct Hc.
Qed.

Lemma watcher_tick_adds_only_new_witness :
  let w := set_clipboard "copied" None (sample_world [sample_item "old" true 1] 50) in
  let e := mkItem Text "copied" "t" false 2 in
  e ∈ clipboardHistory w
  ∨ (pinned e = false
     ∧ accepted_by_watcher (item_type e) (content e)
     ∧ content e ≠ last_seen (item_type e) w
     ∧ match item_type e with
       | Text => clipboard_text w = content e
       | Image => clipboard_image w = Some (content e)
       end).
Proof.
  apply (watcher_tick_adds_only_new 2 "t" 2 "t"
           (set_clipboard "copied" None (sample_world [sample_item "old" true 1] 50))
           (mkItem Text "copied" "t" false 2)).
  vm_compute. apply list_elem_of_here.
Defined.

(** ** What pasting does and does not do *)

Lemma stage_trace item w :
  trace (stage item w) = trace w ++ stage_events item w
  ∧ lastActiveWindowId (stage item w) = lastActiveWindowId w
  ∧ mainWindow (stage item w)
    = (λ win, mkWindow (isDestroyed win) false) <$> mainWindow w.
Proof.
  unfold stage, stage_events, hideWindow.
  destruct (decide (item_type item = Image)); simpl;
    destruct (mainWindow w) eqn:Hwin; simpl; by rewrite <- ?app_assoc.
Qed.

Lemma run_commands_app cmds1 cmds2 w :
  run_commands (cmds1 ++ cmds2) w = run_commands cmds2 (run_commands cmds1 w).
Proof. unfold run_commands. apply foldl_app. Qed.

Lemma run_commands_frame cmds w :
  lastActiveWindowId (run_commands cmds w) = lastActiveWindowId w
  ∧ mainWindow (run_commands cmds w) = mainWindow w
  ∧ shortcuts (run_commands cmds w) = shortcuts w.
Proof.
  induction cmds as [|cmd cmds IH] using rev_ind; [done|].
  rewrite run_commands_snoc. exact IH.
Qed.

(** X9. [pasteItem] touches neither the history nor the store nor what
    the watcher saw last: when its run ends, the OS clipboard holds the
    item (as text, or as image) and the window is hidden; the
    remembered window identifier is cleared when it resolves, and is
    left as it was when [exec] raised. *)
Theorem pasteItem_stages_only (env : Env) (item : Item) (w : World) :
  let w' := pasteItem_world env item w in
  clipboardHistory w' = clipboardHistory w
  ∧ store w' = store w
  ∧ lastClipboardContent w' = lastClipboardContent w
  ∧ lastImageDataURL w' = lastImageDataURL w
  ∧ clipboard_text w'
    = (if decide (item_type item = Image) then EmptyString else content item)
  ∧ clipboard_image w'
    = (if decide (item_type item = Image) then Some (content item) else None)
  ∧ lastActiveWindowId w'
    = (if paste_raises env item w then lastActiveWindowId w else None)
  ∧ mainWindow w' = (λ win, mkWindow (isDestroyed win) false) <$> mainWindow w.
Proof.
  cbv zeta.
  pose proof (pasteItem_world_watcher_view env item w) as Hview.
  rewrite stage_watcher_view in Hview. unfold watcher_view in Hview.
  injection Hview as Hh Ht Hi Hs Hct Hci.
  rewrite pasteItem_world_eq in *.
  set (cmds := paste_commands_run env item w) in *.
  destruct (run_commands_frame cmds (stage item w)) as (Hwid & Hwin & _).
  destruct (stage_trace item w) as (_ & Hswid & Hstage).
  destruct (paste_raises env item w); simpl in *;
    rewrite ?Hwid, ?Hswid, Hwin, Hstage; done.
Qed.

(** X10. [pasteItem] types a text only when the paste keychord failed,
    and never for an image: for an image, or when the keychord command
    exits with success, the effects of [pasteItem] are, in this order,
    the write to the OS clipboard, the hiding of the window, the
    activation of the remembered window if there is one, and the
    keychord command alone; if the activation command holds a NUL,
    [exec] raises on it and no command is run. *)
Theorem pasteItem_keychord_only (env : Env) (item : Item) (w : World) :
  item_type item = Image ∨ exec_error env (keychord_command env) = None →
  new_events w (pasteItem_world env item w)
  = stage_events item w
    ++ (Exec <$> (if existsb has_NUL (activate_commands env w) then []
                  else activate_commands env w ++ [keychord_command env])).
Proof.
  intros Hcase.
  assert (Hprefix : chain_prefix env (paste_commands env item)
                    = [keychord_command env]).
  { destruct (paste_commands_shape env item) as (typing & rest & -> & _).
    cbn [chain_prefix]. rewrite has_NUL_keychord.
    destruct Hcase as [Himg| ->]; [|done].
    rewrite decide_False by (intros Hne; by apply Hne).
    by destruct (exec_error env (keychord_command env)). }
  apply new_events_app. rewrite pasteItem_world_eq.
  assert (Htrace : ∀ w0,
    trace ((if paste_raises env item w then id else set_lastActiveWindowId None) w0)
    = trace w0) by (intros w0; by destruct (paste_raises env item w)).
  rewrite Htrace, run_commands_trace. destruct (stage_trace item w) as (-> & _).
  unfold paste_commands_run. rewrite Hprefix. by rewrite <- app_assoc.
Qed.

Lemma pasteItem_keychord_only_witness :
  let item := sample_item "it's" false 1 in
  let w := sample_world [] 50 in
  new_events w (pasteItem_world x11_env item w)
  = stage_events item w
    ++ (Exec <$> (if existsb has_NUL (activate_commands x11_env w) then []
                  else activate_commands x11_env w ++ [keychord_command x11_env])).
Proof.
  apply (pasteItem_keychord_only x11_env (sample_item "it's" false 1)
           (sample_world [] 50)).
  right. reflexivity.
Defined.

(** ** An invariant of the running manager *)

Lemma history_consistent_view w w' :
  history_view w' = history_view w → history_consistent w → history_consistent w'.
Proof.
  unfold history_view, history_consistent. intros Hview.
  injection Hview as -> -> ->. done.
Qed.

Lemma history_consistent_saveHistory h w :
  NoDup (content <$> h) →
  ((0 ≤ store_maxItems (store w))%Z →
   (Z.of_nat (length h) ≤ store_maxItems (store w))%Z) →
  history_consistent (saveHistory (set_clipboardHistory h w))
  ∧ history_consistent (notify_renderer (saveHistory (set_clipboardHistory h w))).
Proof.
  intros Hnd Hlen. unfold history_consistent, notify_renderer.
  destruct (window_alive _); by simpl.
Qed.

Lemma history_consistent_addToHistory item w :
  history_consistent w → history_consistent (addToHistory item w).
Proof.
  intros (_ & Hnd & _). unfold addToHistory.
  apply history_consistent_saveHistory.
  - by apply addToHistory_list_NoDup.
  - intros Hmax. rewrite addToHistory_list_take by done.
    rewrite length_take. lia.
Qed.

Lemma history_consistent_watcher_tick now iso now' iso' w :
  history_consistent w → history_consistent (watcher_tick now iso now' iso' w).
Proof.
  intros Hw. unfold watcher_tick.
  assert (Htext : history_consistent (watcher_text now iso w)).
  { unfold watcher_text. destruct (_ && _ && _); [|done].
    eapply history_consistent_view; [|by apply history_consistent_addToHistory].
    reflexivity. }
  unfold watcher_image. destruct (clipboard_image _) as [d|]; [|done].
  destruct (_ && _); [|done].
  eapply history_consistent_view; [|by apply history_consistent_addToHistory].
  reflexivity.
Qed.

Lemma history_consistent_toggle_pin index w :
  history_consistent w → history_consistent (toggle_pin index w).2.
Proof.
  intros Hw. unfold toggle_pin. destruct (JS.get _ _); [|done].
  destruct Hw as (_ & Hnd & Hlen). cbn [snd].
  apply history_consistent_saveHistory.
  - rewrite (list_fmap_alter content _ id).
    + by rewrite list_alter_id.
    + by apply Forall_forall.
  - by rewrite length_alter.
Qed.

Lemma history_consistent_delete_item index w :
  history_consistent w → history_consistent (delete_item index w).2.
Proof.
  intros Hw. unfold delete_item. destruct (JS.get _ _) eqn:Hget; [|done].
  destruct Hw as (_ & Hnd & Hlen). cbn [snd].
  apply JS_get_lookup in Hget as [Hpos Hit].
  assert (Hsplice : JS.splice1 (clipboardHistory w) index
                    = delete (Z.to_nat index) (clipboardHistory w)).
  { unfold JS.splice1, JS.clamp_index.
    destruct (Z.ltb_spec index 0); [lia|].
    apply lookup_lt_Some in Hit.
    rewrite Z.min_l by lia. by rewrite delete_take_drop. }
  rewrite Hsplice. apply history_consistent_saveHistory.
  - eapply sublist_NoDup; [exact Hnd|]. apply fmap_sublist, sublist_delete.
  - intros Hmax. specialize (Hlen Hmax).
    rewrite length_delete by (by eexists). lia.
Qed.

Lemma try_fallbacks_history_view env primaryHotkey fbs w :
  history_view (try_fallbacks env primaryHotkey fbs w).2 = history_view w.
Proof.
  revert w. induction fbs as [|fb fbs IH]; intros w; [done|].
  cbn [try_fallbacks]. destruct (decide (fb ≠ primaryHotkey)); [|apply IH].
  unfold globalShortcut_register.
  destruct (register_result env fb); [done | done | apply IH].
Qed.

Lemma globalShortcut_register_history_view env k w :
  match globalShortcut_register env k w with
  | Returns _ w' => history_view w' = history_view w
  | Throws w' => w' = w
  end.
Proof. unfold globalShortcut_register. by destruct (register_result env k). Qed.

Lemma set_hotkey_history_view env k w :
  history_view (set_hotkey env k w).2 = history_view w.
Proof.
  unfold set_hotkey, setupGlobalShortcuts.
  set (w2 := store_set_hotkey k (globalShortcut_unregisterAll w)).
  pose proof (globalShortcut_register_history_view env k w2) as Hreg.
  destruct (globalShortcut_register env k w2) as [b w3|w3].
  - cbn [snd]. by rewrite Hreg.
  - subst w3.
    pose proof (globalShortcut_register_history_view env
                  (store_hotkey (store w2)) w2) as Hreg.
    destruct (globalShortcut_register env (store_hotkey (store w2)) w2)
      as [b w3|w3]; cbn [snd].
    + by rewrite Hreg.
    + subst w3. by rewrite try_fallbacks_history_view.
Qed.

Lemma history_consistent_perform env w a :
  history_consistent w → history_consistent (perform env w a).
Proof.
  intros Hw. destruct a; cbn [perform].
  - done.
  - by apply history_consistent_watcher_tick.
  - by apply history_consistent_toggle_pin.
  - by apply history_consistent_delete_item.
  - unfold clear_history, clearHistory. cbn [snd].
    apply history_consistent_saveHistory; [constructor|simpl; lia].
  - eapply history_consistent_view; [|exact Hw].
    pose proof (pasteItem_world_watcher_view env item w) as Hview.
    rewrite stage_watcher_view in Hview. unfold watcher_view in Hview.
    injection Hview as Hh _ _ Hs _ _. unfold history_view.
    by rewrite Hh, Hs.
  - eapply history_consistent_view; [|exact Hw].
    unfold copy_text, hideWindow. cbn [snd]. by destruct (mainWindow _).
  - eapply history_consistent_view; [|exact Hw].
    unfold copy_image, hideWindow. cbn [snd]. by destruct (mainWindow _).
  - eapply history_consistent_view; [|exact Hw]. apply set_hotkey_history_view.
Qed.

(** X11. Whatever happens to a running manager (copies in other
    applications, runs of the watcher, pin, delete, clear, paste, copy
    and hotkey requests of the renderer, in any order), the persisted
    history stays equal to the history in memory, no two entries have
    the same content, and the list stays within a bound that is not
    negative. *)
Theorem history_consistent_always (env : Env) (actions : list Action) (w : World) :
  history_consistent w → history_consistent (foldl (perform env) w actions).
Proof.
  revert w. induction actions as [|a actions IH]; intros w Hw; [done|].
  apply IH. by apply history_consistent_perform.
Qed.

Lemma history_consistent_always_witness :
  history_consistent
    (foldl (perform x11_env) (sample_world [] 2)
       [CopiedElsewhere "a" None; WatcherRuns 1 "t1" 1 "t1";
        CopiedElsewhere "b" None; WatcherRuns 2 "t2" 2 "t2";
        InvokeTogglePin 1; InvokePasteItem (sample_item "a" true 1);
        WatcherRuns 3 "t3" 3 "t3"; InvokeDeleteItem 0]).
Proof.
  apply (history_consistent_always x11_env _ (sample_world [] 2)).
  split; [done|]. split; [constructor|]. simpl. lia.
Defined.

Example manager_run_history :
  content <$> clipboardHistory
    (foldl (perform x11_env) (sample_world [] 2)
       [CopiedElsewhere "a" None; WatcherRuns 1 "t1" 1 "t1";
        CopiedElsewhere "b" None; WatcherRuns 2 "t2" 2 "t2";
        InvokeTogglePin 1; InvokePasteItem (sample_item "a" true 1);
        WatcherRuns 3 "t3" 3 "t3"; InvokeDeleteItem 0])
  = ["b"].
Proof. reflexivity. Qed.

(** ** The typing commands, as a shell reads them *)

Lemma sh_split_replace_quotes s :
  sh_split InQuote (replace_quotes s +:+ "'") = Some [s].
Proof.
  induction s as [|c s IH]; [done|].
  simpl replace_quotes. destruct (Ascii.eqb_spec c "'") as [->|Hc].
  - rewrite app_string_assoc. rewrite !app_String, app_Empty_l.
    cbn [sh_split Ascii.eqb Bool.eqb]. by rewrite IH.
  - rewrite app_String. cbn [sh_split]. apply Ascii.eqb_neq in Hc.
    by rewrite Hc, IH.
Qed.

Lemma sh_split_shellEscape s :
  sh_split Between (shellEscape (Some s)) = Some [s].
Proof.
  unfold shellEscape. rewrite app_String, app_Empty_l.
  cbn [sh_split Ascii.eqb Bool.eqb]. apply sh_split_replace_quotes.
Qed.

Lemma is_plain_not_special c :
  is_plain c = true →
  Ascii.eqb c " " = false ∧ Ascii.eqb c "'" = false ∧ Ascii.eqb c "\" = false.
Proof.
  destruct c as [[] [] [] [] [] [] [] []]; vm_compute; intros H;
    (discriminate H || done).
Qed.

Lemma sh_split_plain_char st c s :
  st ≠ InQuote → is_plain c = true →
  sh_split st (String c s) = push_char c <$> sh_split InWord s.
Proof.
  intros Hst Hc. destruct (is_plain_not_special c Hc) as (Hsp & Hq & Hb).
  destruct st; [| |done]; cbn [sh_split]; by rewrite Hsp, Hq, Hb, Hc.
Qed.

Lemma sh_split_word_end word rest :
  all_plain word = true →
  sh_split InWord (word +:+ " " +:+ rest) = cons word <$> sh_split Between rest.
Proof.
  induction word as [|c word IH]; intros Hw.
  - rewrite app_Empty_l, app_String, app_Empty_l. by cbn [sh_split Ascii.eqb Bool.eqb].
  - simpl in Hw. apply andb_prop in Hw as [Hc Hw].
    rewrite app_String, sh_split_plain_char, IH by done.
    by destruct (sh_split Between rest).
Qed.

Lemma sh_split_word c word rest :
  all_plain (String c word) = true →
  sh_split Between (String c word +:+ " " +:+ rest)
  = cons (String c word) <$> sh_split Between rest.
Proof.
  intros Hw. simpl in Hw. apply andb_prop in Hw as [Hc Hw].
  rewrite app_String, sh_split_plain_char, sh_split_word_end by done.
  by destruct (sh_split Between rest).
Qed.

Lemma sh_split_wtype arg :
  sh_split Between ("wtype --delay 1 " +:+ arg)
  = (λ words, ["wtype"; "--delay"; "1"] ++ words) <$> sh_split Between arg.
Proof.
  change ("wtype --delay 1 " +:+ arg)
    with ("wtype" +:+ " " +:+ "--delay" +:+ " " +:+ "1" +:+ " " +:+ arg).
  rewrite !sh_split_word by reflexivity.
  by destruct (sh_split Between arg).
Qed.

Lemma sh_split_xdotool_type arg :
  sh_split Between ("xdotool type --clearmodifiers --delay 1 " +:+ arg)
  = (λ words, ["xdotool"; "type"; "--clearmodifiers"; "--delay"; "1"] ++ words)
    <$> sh_split Between arg.
Proof.
  change ("xdotool type --clearmodifiers --delay 1 " +:+ arg)
    with ("xdotool" +:+ " " +:+ "type" +:+ " " +:+ "--clearmodifiers" +:+ " "
          +:+ "--delay" +:+ " " +:+ "1" +:+ " " +:+ arg).
  rewrite !sh_split_word by reflexivity.
  by destruct (sh_split Between arg).
Qed.

(** X12. For every text item, whatever characters the text holds, the
    command [pasteItem] builds to type it is read by a shell as the
    words of the typing tool followed by one more word, which is the
    text itself: the text can neither end the command nor add words
    to it. *)
Theorem typing_command_words_of_text (env : Env) (item : Item) :
  item_type item ≠ Image →
  ∃ cmd,
    paste_commands env item !! 1 = Some cmd
    ∧ sh_split Between cmd = Some (typing_command_words env ++ [content item]).
Proof.
  intros Htext. unfold paste_commands, typing_command_words.
  rewrite !decide_True by done.
  destruct (isWaylandSession env); eexists; (split; [reflexivity|]).
  - by rewrite sh_split_wtype, sh_split_shellEscape.
  - by rewrite sh_split_xdotool_type, sh_split_shellEscape.
Qed.

Lemma typing_command_words_of_text_witness :
  ∃ cmd,
    paste_commands x11_env (sample_item "'; rm -rf ~ #" false 1) !! 1 = Some cmd
    ∧ sh_split Between cmd
      = Some (typing_command_words x11_env ++ ["'; rm -rf ~ #"]).
Proof.
  apply (typing_command_words_of_text x11_env (sample_item "'; rm -rf ~ #" false 1)).
  discriminate.
Defined.

Example sh_split_unquoted_text :
  sh_split Between "xdotool type --delay 1 a; reboot" = None.
Proof. reflexivity. Qed.

Example sh_split_keychord :
  sh_split Between "wtype -M ctrl v -m ctrl"
  = Some ["wtype"; "-M"; "ctrl"; "v"; "-m"; "ctrl"].
Proof. reflexivity. Qed.

(** ** Window placement *)



Example positionAtPointer_flips_left :
  positionAtPointer (Some (mkWindow false false)) (1900, 500)%Z (1920, 1080)%Z
    (450, 600)%Z = Some (1440, 10)%Z.
Proof. reflexivity. Qed.

(** ** The toggle debounce *)

(** X14. From the start of the manager and through any sequence of
    hotkey presses, timer expiries, show callbacks and blurs, the flag
    [toggleInProgress] is set exactly while one debounce timer is
    pending: there is never more than one such timer, and the flag
    cannot stay set once the timer has fired. *)
Theorem toggleInProgress_has_timer (wayland : bool) (events : list PickerEvent) :
  let p := foldl (picker_step wayland) picker_initial events in
  pending_resets p = (if toggleInProgress p then 1 else 0)
  ∧ picker_window p = true.
Proof.
  cbv zeta. induction events as [|e events IH] using rev_ind; [done|].
  rewrite foldl_snoc.
  set (p := foldl (picker_step wayland) picker_initial events) in *.
  destruct IH as [Hres Hwin]. destruct p as [pw pv flag resets shows].
  simpl in Hres, Hwin. subst pw.
  destruct e; simpl.
  - unfold toggleWindow. simpl. destruct flag; [done|]. subst resets.
    destruct pv; simpl; [done|]. by destruct wayland.
  - destruct flag; subst resets; done.
  - by destruct shows.
  - done.
Qed.

Example toggleWindow_double_press :
  foldl (picker_step false) picker_initial [Toggle; Toggle]
  = foldl (picker_step false) picker_initial [Toggle].
Proof. reflexivity. Qed.

Example toggleWindow_show_then_hide :
  picker_visible
    (foldl (picker_step true) picker_initial [Toggle; ResetFires; Toggle])
  = false.
Proof. reflexivity. Qed.

(** ** Which shortcut the process holds *)

Lemma try_fallbacks_shortcuts env primaryHotkey fbs w :
  let r := try_fallbacks env primaryHotkey fbs w in
  (r.1 = true
   ∧ store_hotkey (store r.2) ∈ fbs
   ∧ shortcuts r.2
     = (if decide (register_result env (store_hotkey (store r.2)) = Registered)
        then [store_hotkey (store r.2)] else []) ++ shortcuts w)
  ∨ (r.1 = false ∧ r.2 = w).
Proof.
  cbv zeta. revert w. induction fbs as [|fb fbs IH]; intros w; [by right|].
  cbn [try_fallbacks].
  assert (Hrest : ∀ r : bool * World,
    (r.1 = true ∧ store_hotkey (store r.2) ∈ fbs
     ∧ shortcuts r.2
       = (if decide (register_result env (store_hotkey (store r.2)) = Registered)
          then [store_hotkey (store r.2)] else []) ++ shortcuts w)
    ∨ (r.1 = false ∧ r.2 = w) →
    (r.1 = true ∧ store_hotkey (store r.2) ∈ fb :: fbs
     ∧ shortcuts r.2
       = (if decide (register_result env (store_hotkey (store r.2)) = Registered)
          then [store_hotkey (store r.2)] else []) ++ shortcuts w)
    ∨ (r.1 = false ∧ r.2 = w)).
  { intros r [(? & ? & ?)|?]; [left|by right].
    split; [done|]. split; [by apply list_elem_of_further | done]. }
  destruct (decide (fb ≠ primaryHotkey)); [|apply Hrest, IH].
  unfold globalShortcut_register.
  destruct (register_result env fb) eqn:Hfb.
  - left. simpl. rewrite Hfb. split; [done|]. split; [apply list_elem_of_here|done].
  - left. simpl. rewrite Hfb. split; [done|]. split; [apply list_elem_of_here|done].
  - apply Hrest, IH.
Qed.

Lemma setupGlobalShortcuts_shortcuts (env : Env) (w : World) :
  ∃ w',
    setupGlobalShortcuts env w = Returns () w'
    ∧ shortcuts w'
      = (if decide (register_result env (store_hotkey (store w')) = Registered)
         then [store_hotkey (store w')] else []) ++ shortcuts w
    ∧ (store_hotkey (store w') = store_hotkey (store w)
       ∨ store_hotkey (store w') ∈ fallbacks).
Proof.
  unfold setupGlobalShortcuts, globalShortcut_register.
  destruct (register_result env (store_hotkey (store w))) eqn:Hp.
  - eexists. split; [reflexivity|]. simpl. rewrite Hp. split; [done|by left].
  - eexists. split; [reflexivity|]. rewrite Hp. split; [done|by left].
  - eexists. split; [reflexivity|].
    destruct (try_fallbacks_shortcuts env (store_hotkey (store w)) fallbacks w)
      as [(_ & Hin & Hs)|[_ ->]].
    + split; [done|by right].
    + rewrite Hp. split; [done|by left].
Qed.

(** X15. [setupGlobalShortcuts] never raises.  After it the process
    holds, on top of the shortcuts it held, the persisted hotkey when
    that one could be registered and nothing otherwise; the persisted
    hotkey is the one it found or one of the three fallbacks. *)
Theorem setupGlobalShortcuts_holds_persisted (env : Env) (w : World) :
  ∃ w',
    setupGlobalShortcuts env w = Returns () w'
    ∧ shortcuts w'
      = (if decide (register_result env (store_hotkey (store w')) = Registered)
         then [store_hotkey (store w')] else []) ++ shortcuts w
    ∧ (store_hotkey (store w') = store_hotkey (store w)
       ∨ store_hotkey (store w') ∈ fallbacks).
Proof. apply setupGlobalShortcuts_shortcuts. Qed.

(** X16. After the [set-hotkey] handler the process holds exactly one
    shortcut, the persisted hotkey, when that one could be registered,
    and no shortcut at all otherwise; the persisted hotkey is the
    requested string or one of the three fallbacks. *)
Theorem set_hotkey_holds_persisted (env : Env) (k : string) (w : World) :
  let w' := (set_hotkey env k w).2 in
  shortcuts w'
  = (if decide (register_result env (store_hotkey (store w')) = Registered)
     then [store_hotkey (store w')] else [])
  ∧ (store_hotkey (store w') = k ∨ store_hotkey (store w') ∈ fallbacks).
Proof.
  cbv zeta. unfold set_hotkey.
  set (w2 := store_set_hotkey k (globalShortcut_unregisterAll w)).
  assert (Hk : store_hotkey (store w2) = k) by done.
  assert (Hs : shortcuts w2 = []) by done.
  remember (globalShortcut_register env k w2) as out eqn:Hout.
  unfold globalShortcut_register in Hout.
  destruct (register_result env k) eqn:Hreg; subst out; cbn [snd].
  - cbn [shortcuts store emit set_shortcuts]. rewrite Hk, Hs, Hreg.
    split; [done|by left].
  - rewrite Hk, Hs, Hreg. split; [done|by left].
  - destruct (setupGlobalShortcuts_shortcuts env w2) as (w' & -> & Hsh & Hst).
    cbn [snd]. rewrite Hsh, Hs, app_nil_r. split; [done|].
    rewrite Hk in Hst. exact Hst.
Qed.

Example set_hotkey_refused_holds_nothing :
  let env := mkEnv false (λ _, None) (λ _, Refused) in
  let w' := (set_hotkey env "Ctrl+Alt+X" (sample_world [] 50)).2 in
  store_hotkey (store w') = "Ctrl+Alt+X" ∧ shortcuts w' = [].
Proof. split; reflexivity. Qed.

(** ** The renderer *)

Lemma insert_sorted_pinned_first (a : Item) (front back : list Item) :
  Forall (λ e, pinned e = true) front →
  Forall (λ e, pinned e = false) back →
  Renderer.insert_sorted Renderer.pinned_first a (front ++ back)
  = if pinned a then a :: front ++ back else front ++ a :: back.
Proof.
  intros Hfront Hback. induction Hfront as [|b front Hb _ IH].
  - destruct Hback as [|b back Hb _]; simpl; [by destruct (pinned a)|].
    unfold Renderer.pinned_first. rewrite Hb. by destruct (pinned a).
  - simpl. unfold Renderer.pinned_first at 1. rewrite Hb.
    destruct (pinned a) eqn:Ha; simpl; [done|].
    by rewrite IH.
Qed.

(** X17. The order in which the renderer shows a list is the pinned
    entries followed by the unpinned ones, each group in the order of
    the list it was given. *)
Theorem display_order_pinned_first (filteredHistory : list Item) :
  Renderer.display_order filteredHistory
  = filter (λ e, pinned e = true) filteredHistory
    ++ filter (λ e, pinned e = false) filteredHistory.
Proof.
  unfold Renderer.display_order.
  induction filteredHistory as [|a l IH]; [done|].
  simpl. rewrite IH. rewrite insert_sorted_pinned_first.
  - rewrite !filter_cons. by destruct (pinned a).
  - apply Forall_forall. by intros e [He _]%list_elem_of_filter.
  - apply Forall_forall. by intros e [He _]%list_elem_of_filter.
Qed.

Example display_order_sample :
  content <$> Renderer.display_order
    [sample_item "d" false 4; sample_item "c" true 3; sample_item "b" false 2;
     sample_item "a" true 1]
  = ["c"; "a"; "d"; "b"].
Proof. reflexivity. Qed.

(** X18. The renderer passes the identifier of an entry where the
    [toggle-pin] and [delete-item] handlers expect its position: when
    that identifier is not below the length of the history, both calls
    return [false] and change nothing. *)
Theorem renderer_togglePin_by_id (item : Item) (w : World) :
  (Z.of_nat (length (clipboardHistory w)) ≤ item_id item)%Z →
  Renderer.togglePin item w = (false, w)
  ∧ Renderer.deleteItem item w = (false, w).
Proof.
  intros Hid.
  assert (Hget : JS.get (clipboardHistory w) (item_id item) = None).
  { unfold JS.get. destruct (Z.ltb_spec (item_id item) 0); [done|].
    apply lookup_ge_None. lia. }
  unfold Renderer.togglePin, Renderer.deleteItem, toggle_pin, delete_item.
  by rewrite Hget.
Qed.

Lemma renderer_togglePin_by_id_witness :
  let item := sample_item "a" false 1700000000000 in
  let w := sample_world [item] 50 in
  Renderer.togglePin item w = (false, w) ∧ Renderer.deleteItem item w = (false, w).
Proof.
  apply (renderer_togglePin_by_id (sample_item "a" false 1700000000000)
           (sample_world [sample_item "a" false 1700000000000] 50)).
  simpl. lia.
Defined.
